(** * Batch encoders of [deepchem/models/tf_new_models/graph_topology.py]

    A shallow embedding of [merge_two_dicts], [merge_dicts],
    [DTNNGraphTopology.gauss_expand] and
    [DTNNGraphTopology.batch_to_feed_dict], and the properties of them that
    the specification states.

    Conventions of the embedding.

    - A NumPy [float64] is a real number or one of the three special values
      (+inf, -inf, nan).  Arithmetic on the finite values is exact: rounding
      error, overflow, underflow and the sign of zero are not represented.
      Every zero divisor the source can produce ([2 * step_size**2]) is +0.0,
      which is the reading of a zero divisor taken by [fdiv].
    - A Python [float] that configures the topology ([distance_min],
      [distance_max]) is a finite real; a Python [int] is a [Z]; a NumPy
      [int64] is a [Z] with its wrap-around written out.
    - NumPy arrays live in a heap of buffers.  An [ndarray] value is a handle
      (buffer address and shape); a basic slice such as [batch[:]] is a
      handle on the same buffer; a function that builds a new array
      ([np.asarray] of a list, [np.sign], [np.concatenate], ...) allocates a
      new buffer.
    - Python dictionaries live in a heap of dictionary objects; [x.copy()]
      allocates, [z.update(y)] writes in place. *)

From Stdlib Require Import Reals Lra Lia ZArith.
From stdpp Require Import base option list gmap fin_maps.
From stdpp Require Import strings pretty.

(** ** Python outcomes *)

Inductive exn : Set :=
  | ZeroDivisionError
  | ValueError
  | IndexError
  | TypeError.

Inductive outcome (A : Type) : Type :=
  | Ok (a : A)
  | Raise (e : exn).
Arguments Ok {A} a.
Arguments Raise {A} e.

#[global] Instance outcome_ret : MRet outcome := @Ok.
#[global] Instance outcome_bind : MBind outcome := λ A B f m,
  match m with
  | Ok a => f a
  | Raise e => Raise e
  end.

(** ** NumPy float64 *)

Module F64.

Local Open Scope R_scope.

Inductive float64 : Type :=
  | Fin (r : R)
  | PInf
  | NInf
  | NaN.

#[global] Instance Rlt_decision : RelDecision Rlt := Rlt_dec.
#[global] Instance Req_decision : EqDecision R := Req_dec_T.

#[global] Instance float64_inhabited : Inhabited float64 := populate NaN.

Definition zero : float64 := Fin 0.
Definition one : float64 := Fin 1.

Definition inf_of (negative : bool) : float64 :=
  if negative then NInf else PInf.

Definition is_neg (x : float64) : bool :=
  match x with
  | Fin r => bool_decide (r < 0)
  | NInf => true
  | PInf | NaN => false
  end.

Definition is_zero (x : float64) : bool :=
  match x with
  | Fin r => bool_decide (r = 0)
  | _ => false
  end.

(** [x > 0] *)
Definition fgt0 (x : float64) : bool :=
  match x with
  | Fin r => bool_decide (0 < r)
  | PInf => true
  | NInf | NaN => false
  end.

(** [x <= 0] *)
Definition fle0 (x : float64) : bool :=
  match x with
  | Fin r => bool_decide (r <= 0)
  | NInf => true
  | PInf | NaN => false
  end.

Definition fneg (x : float64) : float64 :=
  match x with
  | Fin r => Fin (- r)
  | PInf => NInf
  | NInf => PInf
  | NaN => NaN
  end.

Definition fsub (x y : float64) : float64 :=
  match x, y with
  | NaN, _ | _, NaN => NaN
  | Fin a, Fin b => Fin (a - b)
  | Fin _, PInf => NInf
  | Fin _, NInf => PInf
  | PInf, PInf => NaN
  | PInf, _ => PInf
  | NInf, NInf => NaN
  | NInf, _ => NInf
  end.

Definition fmul (x y : float64) : float64 :=
  match x, y with
  | NaN, _ | _, NaN => NaN
  | Fin a, Fin b => Fin (a * b)
  | _, _ =>
      if is_zero x || is_zero y then NaN
      else inf_of (xorb (is_neg x) (is_neg y))
  end.

(** [np.square] *)
Definition fsquare (x : float64) : float64 := fmul x x.

(** Division; a zero divisor is +0.0. *)
Definition fdiv (x y : float64) : float64 :=
  match x, y with
  | NaN, _ | _, NaN => NaN
  | Fin a, Fin b =>
      if decide (b = 0) then
        if decide (a = 0) then NaN else inf_of (is_neg x)
      else Fin (a / b)
  | Fin _, _ => Fin 0
  | _, Fin _ => inf_of (xorb (is_neg x) (is_neg y))
  | _, _ => NaN
  end.

(** [np.exp] *)
Definition fexp (x : float64) : float64 :=
  match x with
  | Fin r => Fin (exp r)
  | PInf => PInf
  | NInf => Fin 0
  | NaN => NaN
  end.

(** [np.sign] *)
Definition fsign (x : float64) : float64 :=
  match x with
  | Fin r => if decide (0 < r) then Fin 1
             else if decide (r < 0) then Fin (-1) else Fin 0
  | PInf => Fin 1
  | NInf => Fin (-1)
  | NaN => NaN
  end.

(** [np.power x y] for an exponent [y] that is positive and not an
    integer, the only kind the source uses ([1 / 2.4]). *)
Definition fpower (x : float64) (y : R) : float64 :=
  match x with
  | Fin r => if decide (0 < r) then Fin (Rpower r y)
             else if decide (r = 0) then Fin 0 else NaN
  | PInf => PInf
  | NInf => PInf
  | NaN => NaN
  end.

(** Rounding to the nearest integer, ties to the even one. *)
Definition round_half_even (r : R) : Z :=
  let f := Zfloor r in
  let d := r - IZR f in
  if decide (d < 1 / 2) then f
  else if decide (1 / 2 < d) then (f + 1)%Z
  else if Z.even f then f else (f + 1)%Z.

(** [np.round] with no decimals *)
Definition fround (x : float64) : float64 :=
  match x with
  | Fin r => Fin (IZR (round_half_even r))
  | _ => x
  end.

End F64.
Export F64.

(** ** NumPy int64 *)

Definition int64_min : Z := (- 2 ^ 63)%Z.
Definition int64_max : Z := (2 ^ 63 - 1)%Z.

(** Two's complement wrap-around of int64 arithmetic. *)
Definition wrap64 (z : Z) : Z := ((z + 2 ^ 63) mod 2 ^ 64 - 2 ^ 63)%Z.

(** The C conversion of nan, of an infinity and of a value out of range is
    undefined; x86-64 stores the "integer indefinite" value, the least
    int64. *)
Definition int64_indefinite : Z := int64_min.

(** Truncation toward zero. *)
Definition Ztrunc (r : R) : Z :=
  if decide (0 <= r)%R then Zfloor r else Zceil r.

(** [np.asarray(x, dtype=int)] on one float64 *)
Definition float_to_int64 (x : float64) : Z :=
  match x with
  | Fin r =>
      let z := Ztrunc r in
      if decide (int64_min ≤ z ≤ int64_max)%Z then z else int64_indefinite
  | _ => int64_indefinite
  end.

(** ** The heap of array buffers *)

Abbreviation loc := nat.

Inductive buffer : Type :=
  | FloatBuf (data : list float64)
  | IntBuf (data : list Z).

(** Buffers are never freed: an address is a position in the heap and an
    allocation appends. *)
Abbreviation heap := (list buffer).

(** An array value: the buffer it reads and writes, and its shape.  Every
    array of the source is C-contiguous and covers its whole buffer. *)
Record ndarray : Type := NdArray { base : loc; shape : list nat }.

(** Row-major position of [a[m, i, j]] in an array of shape [(_, nr, nc)]. *)
Definition idx3 (nr nc m i j : nat) : nat := (m * nr + i) * nc + j.

(** [a[:]] is a view: the same buffer under the same shape. *)
Definition slice_all (a : ndarray) : ndarray := a.

(** Computations on the heap that may raise. *)
Definition M (A : Type) : Type := heap → outcome (A * heap).

#[global] Instance M_ret : MRet M := λ A a h, Ok (a, h).
#[global] Instance M_bind : MBind M := λ A B f m h,
  match m h with
  | Ok (a, h') => f a h'
  | Raise e => Raise e
  end.

Definition raise {A} (e : exn) : M A := λ _, Raise e.

Definition lift {A} (o : outcome A) : M A := λ h,
  match o with
  | Ok a => Ok (a, h)
  | Raise e => Raise e
  end.

Definition alloc (b : buffer) : M loc := λ h, Ok (length h, h ++ [b]).

(** The embedding covers float64 batches.  A handle whose buffer is absent
    or holds another dtype cannot be built by the callers of the source and
    is answered with [TypeError]. *)
Definition load_floats (l : loc) : M (list float64) := λ h,
  match h !! l with
  | Some (FloatBuf d) => Ok (d, h)
  | _ => Raise TypeError
  end.

Definition read_float (l : loc) (i : nat) : M float64 :=
  d ← load_floats l;
  match d !! i with
  | Some x => mret x
  | None => raise IndexError
  end.

Definition store (l : loc) (b : buffer) : M unit := λ h,
  Ok ((), <[l := b]> h).

(** Assignment to the cells [off, off + length xs) of a float buffer. *)
Definition write_floats (l : loc) (off : nat) (xs : list float64) : M unit :=
  d ← load_floats l;
  if decide (off + length xs ≤ length d)
  then store l (FloatBuf (list_inserts off xs d))
  else raise IndexError.

Fixpoint for_ {A} (l : list A) (body : A → M unit) : M unit :=
  match l with
  | [] => mret ()
  | x :: l' => body x;; for_ l' body
  end.

(** ** The topology and its placeholders *)

Inductive placeholder : Set :=
  | atom_number_placeholder
  | atom_mask_placeholder
  | distance_matrix_placeholder
  | distance_matrix_mask_placeholder.

#[global] Instance placeholder_eq_dec : EqDecision placeholder.
Proof. solve_decision. Defined.

#[global] Instance placeholder_countable : Countable placeholder.
Proof.
  refine (inj_countable'
    (λ p, match p with
          | atom_number_placeholder => 0
          | atom_mask_placeholder => 1
          | distance_matrix_placeholder => 2
          | distance_matrix_mask_placeholder => 3
          end)
    (λ n, match n with
          | 0 => atom_number_placeholder
          | 1 => atom_mask_placeholder
          | 2 => distance_matrix_placeholder
          | _ => distance_matrix_mask_placeholder
          end) _).
  by intros [].
Defined.

Module DTNNGraphTopology.

(** ** [DTNNGraphTopology.gauss_expand] *)

(** Python's [x / n] on a float and an int, under
    [from __future__ import division]. *)
Definition py_truediv (x : R) (n : Z) : outcome R :=
  if decide (n = 0)%Z then Raise ZeroDivisionError else Ok (x / IZR n)%R.

(** [range(n)] *)
Definition range (n : Z) : list Z := Z.of_nat <$> seq 0 (Z.to_nat n).

Definition gauss_expand (distance : float64) (n_distance : Z)
    (distance_min distance_max : R) : outcome (list float64) :=
  step_size ← py_truediv (distance_max - distance_min) n_distance;
  let steps :=
    (λ i, distance_min + IZR i * step_size)%R <$> range n_distance in
  let distance_vector :=
    (λ s, fexp (fdiv (fneg (fsquare (fsub distance (Fin s))))
                     (Fin (2 * step_size ^ 2)%R))) <$> steps in
  Ok distance_vector.

(** ** [DTNNGraphTopology.__init__] *)

Record t : Type := {
  max_n_atoms : nat;
  n_distance : Z;
  distance_min : R;
  distance_max : R
}.

(** ** [DTNNGraphTopology.batch_to_feed_dict] *)

(** [np.diag] of molecule [m] read from the buffer contents [d]. *)
Definition diag (d : list float64) (nr nc m : nat) : list float64 :=
  (λ i, d !!! idx3 nr nc m i i) <$> seq 0 (nr `min` nc).

(** [np.asarray(np.round(np.power(2 * c, 1 / 2.4)), dtype=int)] on one
    diagonal entry. *)
Definition recover (c : float64) : Z :=
  float_to_int64 (fround (fpower (fmul (Fin 2) c) (1 / 2.4))).

(** [np.outer] on int64 vectors *)
Definition outer (u v : list Z) : list (list Z) :=
  (λ a, (λ b, wrap64 (a * b)) <$> v) <$> u.

(** [ZiZj[im, ir, ie]] *)
Definition index3 (a : list (list (list Z))) (im ir ie : nat) : outcome Z :=
  match a !! im with
  | Some plane =>
      match plane !! ir with
      | Some row =>
          match row !! ie with
          | Some z => Ok z
          | None => Raise IndexError
          end
      | None => Raise IndexError
      end
  | None => Raise IndexError
  end.

(** The shape [np.asarray] gives a list of [nb] vectors of length [k]. *)
Definition stacked_shape (nb k : nat) : list nat :=
  if decide (nb = 0) then [0] else [nb; k].

Definition feed_dict := gmap placeholder ndarray.

(** The body of the innermost loop, at [batch[im, ir, ie]].  The slice
    [distance_matrix[im, ir, ie, :]] has [nd] cells, and NumPy refuses a
    vector of another length. *)
Definition encode_cell (self : t) (ZiZj : list (list (list Z)))
    (batch distance_matrix distance_matrix_mask : ndarray)
    (nr nc nd im ir ie : nat) : M unit :=
  element ← read_float (base batch) (idx3 nr nc im ir ie);
  if fgt0 element && bool_decide (ir ≠ ie) then
    zz ← lift (index3 ZiZj im ir ie);
    v ← lift (gauss_expand (fdiv (Fin (IZR zz)) element) (n_distance self)
                (distance_min self) (distance_max self));
    (if decide (length v = nd)
     then write_floats (base distance_matrix) (idx3 nr nc im ir ie * nd) v
     else raise ValueError);;
    write_floats (base distance_matrix_mask) (idx3 nr nc im ir ie) [one]
  else
    write_floats (base distance_matrix) (idx3 nr nc im ir ie * nd)
      (replicate nd zero);;
    write_floats (base distance_matrix_mask) (idx3 nr nc im ir ie) [zero].

(** The batch is [np.ndarray] of rank 3, one Coulomb matrix per molecule.
    NumPy rejects every other rank ([np.diag], [np.expand_dims] or iteration
    over a 0-d array raises), except an empty batch of higher rank, for which
    every loop is empty. *)
Definition batch_to_feed_dict (self : t) (batch : ndarray) : M feed_dict :=
  match shape batch with
  | [nb; nr; nc] =>
      (* Extract atom numbers *)
      d ← load_floats (base batch);
      let atom_number := diag d nr nc <$> seq 0 nb in
      atom_mask ← alloc (FloatBuf (fsign <$> concat atom_number));
      let atom_number := fmap recover <$> atom_number in
      numbers ← alloc (IntBuf (concat atom_number));
      let ZiZj := (λ molecule, outer molecule molecule) <$> atom_number in
      (* np.concatenate([distance_matrix] * self.n_distance, axis=3) *)
      if decide (n_distance self ≤ 0)%Z then raise ValueError else
      let nd := Z.to_nat (n_distance self) in
      d ← load_floats (base (slice_all batch));
      distance_matrix ← alloc (FloatBuf (d ≫= replicate nd));
      let distance_matrix_mask := slice_all batch in
      for_ (seq 0 nb) (λ im,
        for_ (seq 0 nr) (λ ir,
          for_ (seq 0 nc) (λ ie,
            encode_cell self ZiZj batch
              (NdArray distance_matrix [nb; nr; nc; nd])
              distance_matrix_mask nr nc nd im ir ie)));;
      (* Generate dicts *)
      mret (<[distance_matrix_mask_placeholder := distance_matrix_mask]>
           (<[distance_matrix_placeholder :=
                NdArray distance_matrix [nb; nr; nc; nd]]>
           (<[atom_mask_placeholder :=
                NdArray atom_mask (stacked_shape nb (nr `min` nc))]>
           (<[atom_number_placeholder :=
                NdArray numbers (stacked_shape nb (nr `min` nc))]>
            ∅))))
  | nb :: n1 :: n2 :: n3 :: rest =>
      if decide (nb ≠ 0) then raise ValueError else
      atom_mask ← alloc (FloatBuf []);
      numbers ← alloc (IntBuf []);
      if decide (n_distance self ≤ 0)%Z then raise ValueError else
      let nd := Z.to_nat (n_distance self) in
      distance_matrix ← alloc (FloatBuf []);
      mret (<[distance_matrix_mask_placeholder := slice_all batch]>
           (<[distance_matrix_placeholder :=
                NdArray distance_matrix (0 :: n1 :: n2 :: nd :: n3 :: rest)]>
           (<[atom_mask_placeholder := NdArray atom_mask [0]]>
           (<[atom_number_placeholder := NdArray numbers [0]]> ∅))))
  | [] => raise TypeError
  | _ => raise ValueError
  end.

End DTNNGraphTopology.

(** ** [merge_two_dicts] and [merge_dicts] *)

Section dicts.

Context {K V : Type} `{Countable K}.

(** The heap of dictionary objects; an address is a position and an
    allocation appends.  The values of a dictionary are references and are
    not copied. *)
Abbreviation dict_heap := (list (gmap K V)).

(** [{}] *)
Definition dict_new (h : dict_heap) : loc * dict_heap :=
  (length h, h ++ [∅]).

(** [x.copy()] *)
Definition dict_copy (x : loc) (h : dict_heap) : loc * dict_heap :=
  (length h, h ++ [h !!! x]).

(** [z.update(y)]: the entries of [y] are written into the object [z]. *)
Definition dict_update (z y : loc) (h : dict_heap) : dict_heap :=
  <[z := (h !!! y) ∪ (h !!! z)]> h.

Definition merge_two_dicts (x y : loc) (h : dict_heap) : loc * dict_heap :=
  let '(z, h) := dict_copy x h in
  let h := dict_update z y h in
  (z, h).

Definition merge_dicts (l : list loc) (h : dict_heap) : loc * dict_heap :=
  foldl (λ '(merged, h) dict, merge_two_dicts merged dict h) (dict_new h) l.

(** The dictionary that results from updating [acc] with each of [ds] in
    turn, as a value. *)
Definition merged_of (ds : list (gmap K V)) (acc : gmap K V) : gmap K V :=
  foldl (λ acc d, d ∪ acc) acc ds.

(** The specification's reading of the result at one key: the entry of the
    last dictionary of the list that has the key. *)
Definition last_write (ds : list (gmap K V)) (k : K) (v : V) : Prop :=
  ∃ ds1 d ds2,
    ds = ds1 ++ d :: ds2 ∧ d !! k = Some v ∧ Forall (λ d', d' !! k = None) ds2.

End dicts.

(** The specification's reading of one entry of the Gaussian expansion,
    [exp(-(distance - center)^2 / (2 * step^2))], in float64 arithmetic. *)
Definition gauss_kernel (distance : float64) (center step : R) : float64 :=
  fexp (fdiv (fneg (fsquare (fsub distance (Fin center))))
             (Fin (2 * step ^ 2)%R)).

(** The [i]-th center, [distance_min + i * step]. *)
Definition center (distance_min distance_max : R) (n_distance i : Z) : R :=
  (distance_min + IZR i * ((distance_max - distance_min) / IZR n_distance))%R.



(** Reading a cell through an array handle. *)
Definition cell2 (h : heap) (a : ndarray) (m i : nat) : option float64 :=
  match shape a, h !! base a with
  | [_; nc], Some (FloatBuf d) => d !! (m * nc + i)
  | _, _ => None
  end.

Definition int_cell2 (h : heap) (a : ndarray) (m i : nat) : option Z :=
  match shape a, h !! base a with
  | [_; nc], Some (IntBuf d) => d !! (m * nc + i)
  | _, _ => None
  end.

Definition cell3 (h : heap) (a : ndarray) (m i j : nat) : option float64 :=
  match shape a, h !! base a with
  | [_; nr; nc], Some (FloatBuf d) => d !! idx3 nr nc m i j
  | _, _ => None
  end.

Definition cell4 (h : heap) (a : ndarray) (m i j k : nat) : option float64 :=
  match shape a, h !! base a with
  | [_; nr; nc; nk], Some (FloatBuf d) => d !! (idx3 nr nc m i j * nk + k)
  | _, _ => None
  end.

(** A float64 array of the heap: its buffer and the length its shape
    demands. *)
Definition float_array (h : heap) (a : ndarray) (d : list float64) : Prop :=
  h !! base a = Some (FloatBuf d) ∧ length d = foldr Nat.mul 1 (shape a).

(** What [batch_to_feed_dict] leaves in the heap, cell by cell, for a batch
    of [nb] square matrices of [n] atoms whose buffer held [d] at the call. *)
Section encoded.

Import DTNNGraphTopology.

Variables (self : t) (h : heap) (batch : ndarray) (nb n : nat).
Variable d : list float64.

(** The atomic number recovered for atom [i] of molecule [m]. *)
Definition atom_at (m i : nat) : Z := recover (d !!! idx3 n n m i i).

(** The test of the innermost loop. *)
Definition interacts (v : float64) (i j : nat) : bool :=
  fgt0 v && bool_decide (i ≠ j).

(** The expansion requested for the pair [(i, j)] of value [v]. *)
Definition expansion (m i j : nat) (v : float64) : outcome (list float64) :=
  gauss_expand (fdiv (Fin (IZR (wrap64 (atom_at m i * atom_at m j)))) v)
    (n_distance self) (distance_min self) (distance_max self).

Definition cell_vector (m i j : nat) : list float64 :=
  let v := d !!! idx3 n n m i j in
  if interacts v i j then
    match expansion m i j v with
    | Ok vec => vec
    | Raise _ => []
    end
  else replicate (Z.to_nat (n_distance self)) zero.

Definition cell_mask (m i j : nat) : float64 :=
  if interacts (d !!! idx3 n n m i j) i j then one else zero.

(** The heap once the three new arrays are allocated. *)
Definition allocated : heap :=
  h ++ [ FloatBuf (fsign <$> concat (diag d n n <$> seq 0 nb));
         IntBuf (concat (fmap recover <$> (diag d n n <$> seq 0 nb)));
         FloatBuf (d ≫= replicate (Z.to_nat (n_distance self))) ].

(** The state of the triple loop once the cells at the row-major positions
    below [p] are encoded: those cells hold their mask and their vector,
    the cells from [p] on still hold the input, and no other buffer has
    changed. *)
Definition encoded_upto (p : nat) (hc : heap) : Prop :=
  length hc = length h + 3 ∧
  (∀ l, l ≠ base batch → l ≠ length h + 2 → hc !! l = allocated !! l) ∧
  ∃ mb db,
    hc !! base batch = Some (FloatBuf mb) ∧
    hc !! (length h + 2) = Some (FloatBuf db) ∧
    length mb = nb * n * n ∧
    length db = nb * n * n * Z.to_nat (n_distance self) ∧
    (∀ q, p ≤ q → mb !! q = d !! q) ∧
    (∀ m i j, i < n → j < n → idx3 n n m i j < p →
       mb !! idx3 n n m i j = Some (cell_mask m i j) ∧
       ∀ k, k < Z.to_nat (n_distance self) →
         db !! (idx3 n n m i j * Z.to_nat (n_distance self) + k)
         = cell_vector m i j !! k).

(** The dictionary returned. *)
Definition returned : feed_dict :=
  <[distance_matrix_mask_placeholder := batch]>
  (<[distance_matrix_placeholder :=
       NdArray (length h + 2) [nb; n; n; Z.to_nat (n_distance self)]]>
  (<[atom_mask_placeholder :=
       NdArray (length h) (stacked_shape nb n)]>
  (<[atom_number_placeholder :=
       NdArray (length h + 1) (stacked_shape nb n)]> ∅))).

End encoded.

(** Two dictionaries that collide on the key 1. *)
Definition two_dicts : list (gmap nat nat) :=
  [ {[1 := 10]}; <[2 := 30]> {[1 := 20]} ].

(** A topology of one expansion center and a batch of one molecule of two
    atoms. *)
Definition small_topology : DTNNGraphTopology.t :=
  {| DTNNGraphTopology.max_n_atoms := 2;
     DTNNGraphTopology.n_distance := 1;
     DTNNGraphTopology.distance_min := -1;
     DTNNGraphTopology.distance_max := 18 |}.

Definition small_batch : ndarray := NdArray 0 [1; 2; 2].

Definition small_heap (a b c e : R) : heap :=
  [FloatBuf [Fin a; Fin b; Fin c; Fin e]].

(** ** Dictionaries with pairwise disjoint key sets *)

Section disjoint.

Context {K V : Type} `{Countable K}.

Inductive pairwise_disjoint : list (gmap K V) → Prop :=
  | pairwise_disjoint_nil : pairwise_disjoint []
  | pairwise_disjoint_cons d ds :
      Forall (λ d', d ##ₘ d') ds → pairwise_disjoint ds →
      pairwise_disjoint (d :: ds).

End disjoint.

(** ** [DTNNGraphTopology.__init__]: the lists of placeholders *)

Module DTNNPlaceholders.

Definition topology : list placeholder :=
  [distance_matrix_placeholder; distance_matrix_mask_placeholder].

Definition inputs : list placeholder :=
  [atom_number_placeholder] ++ topology.

Definition get_atom_number_placeholder : placeholder :=
  atom_number_placeholder.

Definition get_distance_matrix_placeholder : placeholder :=
  distance_matrix_placeholder.

(** Inherited from [GraphTopology]. *)
Definition get_input_placeholders : list placeholder := inputs.

Definition get_topology_placeholders : list placeholder := topology.

End DTNNPlaceholders.

(** ** [GraphTopology] *)

Module GraphTopology.

(** The placeholder objects one topology creates, each named after the
    attribute that holds it; [deg_adj_placeholder deg] is the entry for the
    degree [deg] of [deg_adj_lists_placeholders]. *)
Inductive placeholder : Set :=
  | atom_features_placeholder
  | deg_adj_placeholder (deg : Z)
  | deg_slice_placeholder
  | membership_placeholder.

#[global] Instance placeholder_eq_dec : EqDecision placeholder.
Proof. solve_decision. Defined.

#[global] Instance placeholder_countable : Countable placeholder.
Proof.
  refine (inj_countable'
    (λ p, match p with
          | atom_features_placeholder => inl 0
          | deg_slice_placeholder => inl 1
          | membership_placeholder => inl 2
          | deg_adj_placeholder deg => inr deg
          end)
    (λ s, match s with
          | inl 0 => atom_features_placeholder
          | inl 1 => deg_slice_placeholder
          | inl _ => membership_placeholder
          | inr deg => deg_adj_placeholder deg
          end) _).
  by intros [].
Defined.

Record t : Type := {
  n_feat : Z;
  name : string;
  max_deg : Z;
  min_deg : Z
}.

(** [range(start, stop)] *)
Definition range (start stop : Z) : list Z :=
  (λ i, start + Z.of_nat i)%Z <$> seq 0 (Z.to_nat (stop - start)).

(** The arguments of a [tf.placeholder] call; [None] is an unknown
    dimension. *)
Record placeholder_args : Type := {
  dtype : string;
  shape : list (option Z);
  tensor_name : string
}.

Definition args (self : t) (p : placeholder) : placeholder_args :=
  match p with
  | atom_features_placeholder =>
      {| dtype := "float32"; shape := [None; Some (n_feat self)];
         tensor_name := name self +:+ "_atom_features" |}
  | deg_adj_placeholder deg =>
      {| dtype := "int32"; shape := [None; Some deg];
         tensor_name := name self +:+ "_deg_adj" +:+ pretty deg |}
  | deg_slice_placeholder =>
      {| dtype := "int32";
         shape := [Some (max_deg self - min_deg self + 1)%Z; Some 2%Z];
         tensor_name := name self +:+ "_deg_slice" |}
  | membership_placeholder =>
      {| dtype := "int32"; shape := [None];
         tensor_name := name self +:+ "_membership" |}
  end.

Definition deg_adj_lists_placeholders (self : t) : list placeholder :=
  deg_adj_placeholder <$> range 1 (max_deg self + 1).

(** Define the list of tensors to be used as topology *)
Definition topology (self : t) : list placeholder :=
  [deg_slice_placeholder; membership_placeholder]
  ++ deg_adj_lists_placeholders self.

Definition inputs (self : t) : list placeholder :=
  [atom_features_placeholder] ++ topology self.

Definition get_input_placeholders (self : t) : list placeholder :=
  inputs self.

Definition get_topology_placeholders (self : t) : list placeholder :=
  topology self.

Definition get_atom_features_placeholder (self : t) : placeholder :=
  atom_features_placeholder.

Definition get_deg_adjacency_lists_placeholders (self : t) : list placeholder :=
  deg_adj_lists_placeholders self.

Definition get_deg_slice_placeholder (self : t) : placeholder :=
  deg_slice_placeholder.

Definition get_membership_placeholder (self : t) : placeholder :=
  membership_placeholder.

(** The merged molecule [ConvMol.agglomerate_mols] returns, as far as
    [batch_to_feed_dict] reads it: [get_atom_features()], the Python list
    [deg_adj_lists], [deg_slice] and [membership].  The arrays are
    references of type [V]. *)
Record ConvMol (V : Type) : Type := {
  atom_features : V;
  deg_adj_lists : list V;
  deg_slice : V;
  membership : V
}.
Arguments atom_features {V} _.
Arguments deg_adj_lists {V} _.
Arguments deg_slice {V} _.
Arguments membership {V} _.

(** [l[i]] on a Python list: a negative index counts from the end. *)
Definition list_index {V} (l : list V) (i : Z) : outcome V :=
  let n := Z.of_nat (length l) in
  let j := if decide (i < 0)%Z then (n + i)%Z else i in
  if decide (0 ≤ j < n)%Z then
    match l !! Z.to_nat j with
    | Some x => Ok x
    | None => Raise IndexError
    end
  else Raise IndexError.

(** [dict(pairs)] and a dictionary display: a new object in which a later
    pair replaces an earlier one with the same key. *)
Definition dict_of {V} (pairs : list (placeholder * V))
    (h : list (gmap placeholder V)) : loc * list (gmap placeholder V) :=
  (length h, h ++ [list_to_map (reverse pairs)]).

(** [ConvMol.agglomerate_mols] is not part of these sources and is a
    parameter. *)
Definition batch_to_feed_dict {B V} (agglomerate_mols : B → ConvMol V)
    (self : t) (batch : B) (h : list (gmap placeholder V))
    : outcome (loc * list (gmap placeholder V)) :=
  (* Merge mol conv objects *)
  let batch := agglomerate_mols batch in
  let atoms := atom_features batch in
  deg_adj_lists ←
    mapM (list_index (deg_adj_lists batch)) (range 1 (max_deg self + 1));
  (* Generate dicts *)
  let '(deg_adj_dict, h) :=
    dict_of (zip (deg_adj_lists_placeholders self) deg_adj_lists) h in
  let '(atoms_dict, h) :=
    dict_of [ (atom_features_placeholder, atoms);
              (deg_slice_placeholder, deg_slice batch);
              (membership_placeholder, membership batch) ] h in
  mret (merge_dicts [atoms_dict; deg_adj_dict] h).

End GraphTopology.

(** A topology of two degrees, and merged molecules whose arrays are
    numbered: one with an adjacency list for each degree 0, 1, 2, one
    without the list of degree 2. *)
Definition small_graph_topology : GraphTopology.t :=
  {| GraphTopology.n_feat := 75;
     GraphTopology.name := "topology";
     GraphTopology.max_deg := 2;
     GraphTopology.min_deg := 0 |}.

Definition small_mol (_ : unit) : GraphTopology.ConvMol nat :=
  {| GraphTopology.atom_features := 7;
     GraphTopology.deg_adj_lists := [10; 11; 12];
     GraphTopology.deg_slice := 8;
     GraphTopology.membership := 9 |}.

Definition short_mol (_ : unit) : GraphTopology.ConvMol nat :=
  {| GraphTopology.atom_features := 7;
     GraphTopology.deg_adj_lists := [10; 11];
     GraphTopology.deg_slice := 8;
     GraphTopology.membership := 9 |}.

(** * Properties *)

Import DTNNGraphTopology.

(** ** Gaussian expansion *)

Section gauss.

Local Open Scope R_scope.




Lemma range_length n : length (range n) = Z.to_nat n.
Proof. unfold range. by rewrite length_fmap, length_seq. Qed.


Lemma range_nonpos n : (n ≤ 0)%Z → range n = [].
Proof. intros Hn. unfold range. by replace (Z.to_nat n) with 0%nat by lia. Qed.

(** What [gauss_expand] returns whenever the step size is defined. *)
Lemma gauss_expand_ok d n lo hi :
  n ≠ 0%Z →
  gauss_expand d n lo hi =
    Ok ((λ i, gauss_kernel d (center lo hi n i) ((hi - lo) / IZR n))
          <$> range n).
Proof.
  intros Hn. unfold gauss_expand, py_truediv.
  rewrite decide_False by done. cbn.
  by rewrite <- list_fmap_compose.
Qed.

Lemma gauss_expand_zero d lo hi :
  gauss_expand d 0 lo hi = Raise ZeroDivisionError.
Proof. done. Qed.

Lemma gauss_expand_length d n lo hi v :
  gauss_expand d n lo hi = Ok v → length v = Z.to_nat n.
Proof.
  destruct (decide (n = 0%Z)) as [->|Hn]; [done|].
  rewrite gauss_expand_ok by done. intros [= <-].
  by rewrite length_fmap, range_length.
Qed.









End gauss.

(** ** Merging dictionaries *)

Section merge.

Context {K V : Type} `{Countable K}.
Implicit Types (h : list (gmap K V)) (l : list loc).
Implicit Types (ds : list (gmap K V)) (acc d : gmap K V).

Lemma merged_of_dom ds acc :
  dom (merged_of ds acc) = dom acc ∪ ⋃ (dom <$> ds).
Proof.
  revert acc. induction ds as [|d ds IH]; intros acc; cbn.
  - by rewrite (right_id_L ∅ (∪)).
  - unfold merged_of in IH. rewrite IH, dom_union_L.
    by rewrite (comm_L (∪) (dom d)), (assoc_L (∪)).
Qed.

Lemma merged_of_lookup ds acc k v :
  merged_of ds acc !! k = Some v ↔
  last_write ds k v ∨ (Forall (λ d, d !! k = None) ds ∧ acc !! k = Some v).
Proof.
  revert acc. induction ds as [|d ds IH]; intros acc; cbn.
  - split; [by right|].
    intros [(ds1 & d & ds2 & Heq & _)|[_ ?]]; [|done].
    by destruct ds1.
  - unfold merged_of in IH. rewrite IH. split.
    + intros [(ds1 & d' & ds2 & -> & Hd & Hno)|[Hno Hacc]].
      * left. by exists (d :: ds1), d', ds2.
      * apply lookup_union_Some_raw in Hacc as [Hd|[Hd Hacc]].
        -- left. by exists [], d, ds.
        -- right. split; [by constructor|done].
    + intros [(ds1 & d' & ds2 & Heq & Hd & Hno)|[Hno Hacc]].
      * destruct ds1 as [|d0 ds1]; simplify_eq/=.
        -- right. split; [done|]. by apply lookup_union_Some_l.
        -- left. by exists ds1, d', ds2.
      * inversion_clear Hno as [|?? Hd Hds]. right. split; [done|].
        apply lookup_union_Some_raw. by right.
Qed.

Lemma merge_two_dicts_run x y h a b :
  h !! x = Some a → h !! y = Some b →
  merge_two_dicts x y h = (length h, h ++ [b ∪ a]).
Proof.
  intros Hx Hy. unfold merge_two_dicts, dict_copy, dict_update.
  assert (x < length h) by (by eapply lookup_lt_Some).
  assert (y < length h) by (by eapply lookup_lt_Some).
  f_equal.
  rewrite (list_lookup_total_correct h x a Hx).
  rewrite (list_lookup_total_correct (h ++ [a]) y b)
    by (by rewrite lookup_app_l).
  rewrite (list_lookup_total_correct (h ++ [a]) (length h) a)
    by (by rewrite lookup_app_r, Nat.sub_diag).
  transitivity (<[length h + 0 := b ∪ a]> (h ++ [a])).
  { by rewrite Nat.add_0_r. }
  apply (insert_app_r h [a] 0).
Qed.

Lemma merge_dicts_fold l h0 hc merged acc :
  Forall (λ x, x < length h0) l →
  (∀ x, x < length h0 → hc !! x = h0 !! x) →
  hc !! merged = Some acc →
  ∃ m' h', foldl (λ '(merged, h) dict, merge_two_dicts merged dict h)
             (merged, hc) l = (m', h') ∧
           h' !! m' = Some (merged_of ((h0 !!!.) <$> l) acc) ∧
           (∀ x, x < length h0 → h' !! x = h0 !! x).
Proof.
  intros Hl. revert hc merged acc.
  induction Hl as [|x l Hx Hl IH]; intros hc merged acc Hpre Hm;
    cbn [foldl fmap list_fmap].
  - by exists merged, hc.
  - destruct (lookup_lt_is_Some_2 h0 x Hx) as [b Hb].
    assert (hc !! x = Some b) as Hcx by (by rewrite Hpre).
    rewrite (merge_two_dicts_run merged x hc acc b) by done.
    assert (length h0 ≤ length hc) as Hlen.
    { destruct (decide (length h0 ≤ length hc)) as [|Hgt]; [done|].
      exfalso. specialize (Hpre (length hc) ltac:(lia)).
      rewrite (lookup_ge_None_2 hc (length hc)) in Hpre by lia.
      symmetry in Hpre. apply lookup_ge_None in Hpre. lia. }
    destruct (IH (hc ++ [b ∪ acc]) (length hc) (b ∪ acc)) as (m' & h' & ? & ? & ?).
    + intros y Hy. rewrite lookup_app_l by lia. by apply Hpre.
    + by rewrite lookup_app_r, Nat.sub_diag.
    + exists m', h'. split_and!; [done| |done].
      by rewrite (list_lookup_total_correct _ _ _ Hb).
Qed.

(** C8: for every list of dictionaries, [merge_dicts] returns a dictionary
    whose keys are the union of the keys of the inputs and whose value at
    each key is that of the last dictionary of the list that has the key;
    no dictionary that existed before the call is modified. *)
Theorem merge_dicts_last_write_wins l h :
  Forall (λ x, x < length h) l →
  let ds := (h !!!.) <$> l in
  ∃ merged h' result,
    merge_dicts l h = (merged, h') ∧
    h' !! merged = Some result ∧
    dom result = ⋃ (dom <$> ds) ∧
    (∀ k v, result !! k = Some v ↔ last_write ds k v) ∧
    (∀ x, x < length h → h' !! x = h !! x).
Proof.
  intros Hl ds. unfold merge_dicts, dict_new.
  destruct (merge_dicts_fold l h (h ++ [∅]) (length h) ∅ Hl)
    as (m' & h' & Hrun & Hres & Hframe).
  { intros x Hx. by rewrite lookup_app_l. }
  { by rewrite lookup_app_r, Nat.sub_diag. }
  exists m', h', (merged_of ds ∅). split_and!; [done..| | |done].
  - rewrite merged_of_dom, dom_empty_L. by rewrite (left_id_L ∅ (∪)).
  - intros k v. rewrite merged_of_lookup. split; [|by left].
    intros [?|[_ Hemp]]; [done|]. by rewrite lookup_empty in Hemp.
Qed.

End merge.

Lemma merge_dicts_last_write_wins_witness :
  Forall (λ x, x < length two_dicts) [0; 1] ∧
  ∃ merged h' result,
    merge_dicts [0; 1] two_dicts = (merged, h') ∧
    h' !! merged = Some result ∧
    dom result = ⋃ (dom <$> ((two_dicts !!!.) <$> [0; 1])) ∧
    (∀ k v, result !! k = Some v ↔
            last_write ((two_dicts !!!.) <$> [0; 1]) k v) ∧
    (∀ x, x < length two_dicts → h' !! x = two_dicts !! x).
Proof.
  assert (Forall (λ x, x < length two_dicts) [0; 1]) as Hl
    by (repeat constructor).
  split; [exact Hl|].
  exact (merge_dicts_last_write_wins [0; 1] two_dicts Hl).
Defined.

(** ** Recovery of atomic numbers *)

Section atoms.

Local Open Scope R_scope.

Lemma round_half_even_IZR z : round_half_even (IZR z) = z.
Proof.
  unfold round_half_even. rewrite ZfloorZ.
  rewrite decide_True by lra. done.
Qed.


Lemma Ztrunc_IZR z : Ztrunc (IZR z) = z.
Proof.
  unfold Ztrunc. case_decide.
  - apply ZfloorZ.
  - apply Zceil_eq. lra.
Qed.

Lemma float_to_int64_IZR z :
  (int64_min ≤ z ≤ int64_max)%Z → float_to_int64 (Fin (IZR z)) = z.
Proof.
  intros Hz. unfold float_to_int64. rewrite Ztrunc_IZR.
  by rewrite decide_True.
Qed.

Lemma float_to_int64_range x :
  (int64_min ≤ float_to_int64 x ≤ int64_max)%Z.
Proof.
  unfold float_to_int64, int64_indefinite, int64_min, int64_max.
  destruct x; try lia. case_decide; unfold int64_min, int64_max in *; lia.
Qed.

Lemma recover_zero : recover (Fin 0) = 0%Z.
Proof.
  unfold recover, fmul, fpower.
  rewrite decide_False by lra. rewrite decide_True by lra.
  unfold fround. rewrite round_half_even_IZR.
  apply float_to_int64_IZR. unfold int64_min, int64_max. lia.
Qed.

Lemma recover_neg r : r < 0 → recover (Fin r) = int64_indefinite.
Proof.
  intros Hr. unfold recover, fmul, fpower.
  rewrite decide_False by lra. by rewrite decide_False by lra.
Qed.








Lemma fsign_zero : fsign (Fin 0) = zero.
Proof.
  unfold fsign. rewrite decide_False by lra. by rewrite decide_False by lra.
Qed.


End atoms.

(** ** Running heap computations *)

Section monad.

Lemma bind_run {A B} (m : M A) (f : A → M B) (h h' : heap) a :
  m h = Ok (a, h') → (m ≫= f) h = f a h'.
Proof. intros Hm. unfold mbind, M_bind. by rewrite Hm. Qed.

Lemma alloc_run b (h : heap) : alloc b h = Ok (length h, h ++ [b]).
Proof. done. Qed.

Lemma load_floats_run l (h : heap) d :
  h !! l = Some (FloatBuf d) → load_floats l h = Ok (d, h).
Proof. intros Hl. unfold load_floats. by rewrite Hl. Qed.

Lemma read_float_run l i (h : heap) d x :
  h !! l = Some (FloatBuf d) → d !! i = Some x →
  read_float l i h = Ok (x, h).
Proof.
  intros Hl Hi. unfold read_float.
  rewrite (bind_run _ _ h h d) by (by apply load_floats_run).
  by rewrite Hi.
Qed.

Lemma write_floats_run l off xs (h : heap) d :
  h !! l = Some (FloatBuf d) → off + length xs ≤ length d →
  write_floats l off xs h =
    Ok ((), <[l := FloatBuf (list_inserts off xs d)]> h).
Proof.
  intros Hl Hoff. unfold write_floats.
  rewrite (bind_run _ _ h h d) by (by apply load_floats_run).
  by rewrite decide_True.
Qed.

(** A loop over [0 .. n) that keeps an invariant indexed by the number of
    iterations done. *)
Lemma for_invariant (P : nat → heap → Prop) (body : nat → M ()) n :
  (∀ i h, i < n → P i h → ∃ h', body i h = Ok ((), h') ∧ P (S i) h') →
  ∀ h, P 0 h → ∃ h', for_ (seq 0 n) body h = Ok ((), h') ∧ P n h'.
Proof.
  intros Hbody.
  assert (∀ k j h, j + k = n → P j h →
            ∃ h', for_ (seq j k) body h = Ok ((), h') ∧ P n h') as Hgen.
  { induction k as [|k IH]; intros j h Hjk HP.
    - exists h. replace n with j by lia. done.
    - destruct (Hbody j h) as (h1 & Hrun & HP1); [lia|done|].
      destruct (IH (S j) h1) as (h2 & Hrest & HP2); [lia|done|].
      exists h2. split; [|done]. cbn [seq for_].
      by rewrite (bind_run _ _ h h1 ()). }
  intros h HP. by apply (Hgen n 0).
Qed.

End monad.

(** ** The Coulomb-matrix encoder *)

Lemma idx3_bound nb n m i j :
  m < nb → i < n → j < n → idx3 n n m i j < nb * n * n.
Proof. unfold idx3. nia. Qed.

Lemma quotient_remainder_inj n a j a' j' :
  j < n → j' < n → a * n + j = a' * n + j' → a = a' ∧ j = j'.
Proof.
  intros Hj Hj' Heq.
  destruct (Nat.lt_trichotomy a a') as [Hlt|[->|Hlt]]; [|lia|].
  - assert ((a + 1) * n ≤ a' * n) by (apply Nat.mul_le_mono_r; lia). lia.
  - assert ((a' + 1) * n ≤ a * n) by (apply Nat.mul_le_mono_r; lia). lia.
Qed.

Lemma idx3_inj n m i j m' i' j' :
  i < n → j < n → i' < n → j' < n →
  idx3 n n m i j = idx3 n n m' i' j' → m = m' ∧ i = i' ∧ j = j'.
Proof.
  unfold idx3. intros Hi Hj Hi' Hj' Heq.
  apply quotient_remainder_inj in Heq as [Heq ->]; [|done..].
  apply quotient_remainder_inj in Heq as [-> ->]; done.
Qed.

Lemma concat_lookup_uniform {A} (ls : list (list A)) n m i (l : list A) :
  Forall (λ l, length l = n) ls → ls !! m = Some l → i < n →
  concat ls !! (m * n + i) = l !! i.
Proof.
  intros Hall. revert m. induction Hall as [|l0 ls Hl0 Hall IH]; intros m Hm Hi.
  - done.
  - destruct m as [|m]; cbn in *.
    + simplify_eq. by rewrite lookup_app_l by lia.
    + rewrite lookup_app_r by lia.
      replace (n + m * n + i - length l0) with (m * n + i) by lia.
      by apply IH.
Qed.

Lemma expansion_ok self n d m i j v :
  (1 ≤ n_distance self)%Z →
  ∃ vec, expansion self n d m i j v = Ok vec ∧
         length vec = Z.to_nat (n_distance self).
Proof.
  intros Hnd. unfold expansion. eexists.
  split; [apply gauss_expand_ok; lia|].
  by rewrite length_fmap, range_length.
Qed.

Lemma cell_vector_length self n d m i j :
  (1 ≤ n_distance self)%Z →
  length (cell_vector self n d m i j) = Z.to_nat (n_distance self).
Proof.
  intros Hnd. unfold cell_vector. destruct (interacts _ _ _).
  - by destruct (expansion_ok self n d m i j (d !!! idx3 n n m i j) Hnd)
      as (vec & -> & ?).
  - by rewrite length_replicate.
Qed.

Section encoder.

Variables (self : t) (h : heap) (batch : ndarray) (nb n : nat).
Variable d : list float64.
Hypothesis Hshape : shape batch = [nb; n; n].
Hypothesis Hbuf : h !! base batch = Some (FloatBuf d).
Hypothesis Hlen : length d = nb * n * n.
Hypothesis Hnd : (1 ≤ n_distance self)%Z.

Abbreviation nd := (Z.to_nat (n_distance self)).
Abbreviation numbers := (fmap recover <$> (diag d n n <$> seq 0 nb)).
Abbreviation ZiZj := ((λ molecule, outer molecule molecule) <$> numbers).
Abbreviation distance_matrix := (NdArray (length h + 2) [nb; n; n; nd]).

Lemma base_batch_lt : base batch < length h.
Proof. by eapply lookup_lt_Some. Qed.

Lemma diag_lookup m i :
  i < n → diag d n n m !! i = Some (d !!! idx3 n n m i i).
Proof.
  intros Hi. unfold diag. rewrite Nat.min_id.
  by rewrite list_lookup_fmap, lookup_seq_lt.
Qed.

Lemma diag_length m : length (diag d n n m) = n.
Proof. unfold diag. by rewrite length_fmap, length_seq, Nat.min_id. Qed.

Lemma ZiZj_lookup m i j :
  m < nb → i < n → j < n →
  index3 ZiZj m i j = Ok (wrap64 (atom_at n d m i * atom_at n d m j)).
Proof.
  intros Hm Hi Hj. unfold index3, outer, atom_at.
  rewrite !list_lookup_fmap, lookup_seq_lt by done. cbn.
  rewrite !list_lookup_fmap, diag_lookup by done. cbn.
  by rewrite !list_lookup_fmap, diag_lookup by done.
Qed.

(** One iteration of the innermost loop: it reads the cell at [p], which
    still holds the input, and overwrites that cell of the batch buffer and
    the matching slice of the new tensor. *)
Lemma encode_cell_run im ir ie hc :
  im < nb → ir < n → ie < n →
  encoded_upto self h batch nb n d (idx3 n n im ir ie) hc →
  ∃ hc',
    encode_cell self ZiZj batch (NdArray (length h + 2) [nb; n; n; nd])
      (slice_all batch) n n nd im ir ie hc = Ok ((), hc') ∧
    encoded_upto self h batch nb n d (S (idx3 n n im ir ie)) hc'.
Proof.
  intros Him Hir Hie (Hsize & Hframe & mb & db & Hmb & Hdb & Hlmb & Hldb
                      & Hrest & Hdone).
  pose proof (idx3_bound nb n im ir ie Him Hir Hie) as Hp.
  pose proof base_batch_lt as Hbl.
  set (p := idx3 n n im ir ie) in *.
  destruct (lookup_lt_is_Some_2 d p) as [v Hv]; [lia|].
  assert (d !!! p = v) as Hvt by (by apply list_lookup_total_correct).
  assert (encode_cell self ZiZj batch (NdArray (length h + 2) [nb; n; n; nd])
            (slice_all batch) n n nd im ir ie hc
          = Ok ((), <[base batch :=
                        FloatBuf (list_inserts p [cell_mask n d im ir ie] mb)]>
                    (<[length h + 2 :=
                        FloatBuf (list_inserts (p * nd)
                                    (cell_vector self n d im ir ie) db)]> hc)))
    as Hrun.
  { unfold encode_cell. fold p.
    rewrite (bind_run _ _ hc hc v)
      by (apply (read_float_run _ _ _ mb); [done|by rewrite Hrest]).
    unfold cell_mask, cell_vector. fold p. rewrite Hvt.
    unfold interacts. destruct (fgt0 v && bool_decide (ir ≠ ie)).
    - rewrite (bind_run _ _ hc hc (wrap64 (atom_at n d im ir * atom_at n d im ie)))
        by (unfold lift; by rewrite ZiZj_lookup).
      destruct (expansion_ok self n d im ir ie v Hnd) as (vec & Hvec & Hlvec).
      unfold expansion in Hvec.
      rewrite (bind_run _ _ hc hc vec) by (unfold lift; by rewrite Hvec).
      unfold expansion. rewrite Hvec. rewrite decide_True by done.
      erewrite bind_run; last first.
      { apply (write_floats_run _ _ _ _ db); [done|]. cbn. nia. }
      apply write_floats_run.
      + rewrite list_lookup_insert_ne by (cbn; lia). done.
      + cbn. lia.
    - erewrite bind_run; last first.
      { apply (write_floats_run _ _ _ _ db); [done|].
        rewrite length_replicate. cbn. nia. }
      apply write_floats_run.
      + rewrite list_lookup_insert_ne by (cbn; lia). done.
      + cbn. lia. }
  eexists. split; [exact Hrun|].
  split_and!.
  - by rewrite !length_insert.
  - intros l Hl1 Hl2. rewrite !list_lookup_insert_ne by done. by apply Hframe.
  - exists (list_inserts p [cell_mask n d im ir ie] mb),
           (list_inserts (p * nd) (cell_vector self n d im ir ie) db).
    split_and!.
    + apply list_lookup_insert_eq. rewrite length_insert. lia.
    + rewrite list_lookup_insert_ne by lia.
      apply list_lookup_insert_eq. lia.
    + by rewrite length_inserts.
    + by rewrite length_inserts.
    + intros q Hq. rewrite list_lookup_inserts_ge by (cbn; lia).
      apply Hrest. lia.
    + intros m i j Hi Hj Hlt.
      destruct (decide (idx3 n n m i j = p)) as [Heq|Hne].
      * destruct (idx3_inj n m i j im ir ie) as (-> & -> & ->); [done..|].
        fold p. split.
        -- rewrite list_lookup_inserts by (cbn; lia).
           by rewrite Nat.sub_diag.
        -- intros k Hk.
           rewrite list_lookup_inserts
             by (rewrite ?cell_vector_length; nia).
           f_equal. lia.
      * destruct (Hdone m i j Hi Hj) as [Hmask Hvecs]; [lia|]. split.
        -- by rewrite list_lookup_inserts_lt by lia.
        -- intros k Hk. rewrite list_lookup_inserts_lt by nia.
           by apply Hvecs.
Qed.

(** The loop over the columns of one row. *)
Lemma row_run im ir hc :
  im < nb → ir < n →
  encoded_upto self h batch nb n d (idx3 n n im ir 0) hc →
  ∃ hc',
    for_ (seq 0 n) (λ ie,
      encode_cell self ZiZj batch distance_matrix (slice_all batch)
        n n nd im ir ie) hc = Ok ((), hc') ∧
    encoded_upto self h batch nb n d (idx3 n n im (S ir) 0) hc'.
Proof.
  intros Him Hir Hinv.
  destruct (for_invariant
              (λ ie, encoded_upto self h batch nb n d (idx3 n n im ir ie))
              (λ ie, encode_cell self ZiZj batch distance_matrix
                       (slice_all batch) n n nd im ir ie) n)
    with (h := hc) as (hc' & Hrun & Hpost); [|done|].
  - intros ie h0 Hie Hh0.
    replace (idx3 n n im ir (S ie)) with (S (idx3 n n im ir ie))
      by (unfold idx3; lia).
    by apply encode_cell_run.
  - exists hc'. split; [done|].
    by replace (idx3 n n im (S ir) 0) with (idx3 n n im ir n)
      by (unfold idx3; lia).
Qed.

(** The loop over the rows of one molecule. *)
Lemma molecule_run im hc :
  im < nb →
  encoded_upto self h batch nb n d (idx3 n n im 0 0) hc →
  ∃ hc',
    for_ (seq 0 n) (λ ir,
      for_ (seq 0 n) (λ ie,
        encode_cell self ZiZj batch distance_matrix (slice_all batch)
          n n nd im ir ie)) hc = Ok ((), hc') ∧
    encoded_upto self h batch nb n d (idx3 n n (S im) 0 0) hc'.
Proof.
  intros Him Hinv.
  destruct (for_invariant
              (λ ir, encoded_upto self h batch nb n d (idx3 n n im ir 0))
              (λ ir, for_ (seq 0 n) (λ ie,
                 encode_cell self ZiZj batch distance_matrix
                   (slice_all batch) n n nd im ir ie)) n)
    with (h := hc) as (hc' & Hrun & Hpost); [|done|].
  - intros ir h0 Hir Hh0. by apply row_run.
  - exists hc'. split; [done|].
    by replace (idx3 n n (S im) 0 0) with (idx3 n n im n 0)
      by (unfold idx3; lia).
Qed.

Lemma replicated_length (l : list float64) k :
  length (l ≫= replicate k) = length l * k.
Proof.
  induction l as [|x l IH]; [done|].
  cbn. rewrite length_app, length_replicate. cbn in IH. lia.
Qed.

Lemma allocated_encoded : encoded_upto self h batch nb n d 0 (allocated self h nb n d).
Proof.
  pose proof base_batch_lt as Hbl. unfold allocated.
  split_and!.
  - rewrite length_app. cbn. lia.
  - done.
  - exists d, (d ≫= replicate nd). split_and!.
    + by rewrite lookup_app_l.
    + rewrite lookup_app_r by lia.
      by replace (length h + 2 - length h) with 2 by lia.
    + done.
    + by rewrite replicated_length, Hlen.
    + done.
    + lia.
Qed.

(** The whole call: it returns, and every cell has been encoded. *)
Lemma batch_to_feed_dict_run :
  ∃ h',
    batch_to_feed_dict self batch h = Ok (returned self h batch nb n, h') ∧
    encoded_upto self h batch nb n d (nb * n * n) h'.
Proof.
  pose proof base_batch_lt as Hbl.
  destruct (for_invariant
              (λ im, encoded_upto self h batch nb n d (idx3 n n im 0 0))
              (λ im, for_ (seq 0 n) (λ ir, for_ (seq 0 n) (λ ie,
                 encode_cell self ZiZj batch distance_matrix
                   (slice_all batch) n n nd im ir ie))) nb)
    with (h := allocated self h nb n d) as (h' & Hrun & Hpost).
  { intros im h0 Him Hh0. by apply molecule_run. }
  { apply allocated_encoded. }
  exists h'. split.
  - unfold batch_to_feed_dict. rewrite Hshape, Nat.min_id.
    rewrite (bind_run _ _ h h d) by (by apply load_floats_run).
    rewrite (bind_run _ _ h _ (length h)) by apply alloc_run.
    erewrite bind_run by apply alloc_run.
    rewrite decide_False by lia.
    erewrite bind_run; last first.
    { apply load_floats_run. unfold slice_all.
      rewrite !lookup_app_l; [done|lia|rewrite length_app; lia]. }
    erewrite bind_run by apply alloc_run.
    rewrite !length_app. cbn [length].
    replace (length h + 1 + 1) with (length h + 2) by lia.
    unfold allocated in Hrun. rewrite <- !app_assoc. cbn [app].
    erewrite bind_run by exact Hrun.
    done.
  - by replace (nb * n * n) with (idx3 n n nb 0 0) by (unfold idx3; lia).
Qed.

End encoder.

(** ** What the caller observes *)

Section observed.

Variables (self : t) (h : heap) (batch : ndarray) (nb n : nat).
Variable d : list float64.
Hypothesis Hshape : shape batch = [nb; n; n].
Hypothesis Harray : float_array h batch d.
Hypothesis Hnd : (1 ≤ n_distance self)%Z.

Abbreviation nd := (Z.to_nat (n_distance self)).
Abbreviation atom_number := (NdArray (length h + 1) (stacked_shape nb n)).
Abbreviation atom_mask := (NdArray (length h) (stacked_shape nb n)).
Abbreviation distance_matrix := (NdArray (length h + 2) [nb; n; n; nd]).

Lemma float_array_buffer : h !! base batch = Some (FloatBuf d).
Proof. apply Harray. Qed.

Lemma float_array_length : length d = nb * n * n.
Proof. destruct Harray as [_ ->]. rewrite Hshape. cbn. lia. Qed.

Lemma input_cell m i j v :
  cell3 h batch m i j = Some v → d !!! idx3 n n m i j = v.
Proof.
  unfold cell3. rewrite Hshape, float_array_buffer.
  apply list_lookup_total_correct.
Qed.

Lemma input_cell_defined m i j :
  m < nb → i < n → j < n →
  cell3 h batch m i j = Some (d !!! idx3 n n m i j).
Proof.
  intros Hm Hi Hj. unfold cell3. rewrite Hshape, float_array_buffer.
  apply list_lookup_lookup_total_lt. rewrite float_array_length.
  by apply idx3_bound.
Qed.

Lemma returned_atom_number :
  returned self h batch nb n !! atom_number_placeholder = Some atom_number.
Proof. done. Qed.

Lemma returned_atom_mask :
  returned self h batch nb n !! atom_mask_placeholder = Some atom_mask.
Proof. done. Qed.

Lemma returned_distance_matrix :
  returned self h batch nb n !! distance_matrix_placeholder
  = Some distance_matrix.
Proof. done. Qed.

Lemma returned_distance_matrix_mask :
  returned self h batch nb n !! distance_matrix_mask_placeholder
  = Some batch.
Proof. done. Qed.

(** The three arrays built by the call are new; the distance mask is the
    input batch itself. *)
Lemma returned_handles key a :
  returned self h batch nb n !! key = Some a →
  if decide (key = distance_matrix_mask_placeholder)
  then a = batch
  else length h ≤ base a.
Proof.
  destruct key.
  - rewrite returned_atom_number. intros [= <-].
    rewrite decide_False by done. cbn. lia.
  - rewrite returned_atom_mask. intros [= <-].
    rewrite decide_False by done. cbn. lia.
  - rewrite returned_distance_matrix. intros [= <-].
    rewrite decide_False by done. cbn. lia.
  - rewrite returned_distance_matrix_mask. intros [= <-].
    by rewrite decide_True.
Qed.

(** The call returns, and the heap it leaves is read through the returned
    handles as follows. *)
Lemma batch_to_feed_dict_cells :
  ∃ h',
    batch_to_feed_dict self batch h = Ok (returned self h batch nb n, h') ∧
    length h' = length h + 3 ∧
    (∀ l, l < length h → l ≠ base batch → h' !! l = h !! l) ∧
    (∀ m i, m < nb → i < n →
       cell2 h' atom_mask m i = Some (fsign (d !!! idx3 n n m i i)) ∧
       int_cell2 h' atom_number m i = Some (atom_at n d m i)) ∧
    (∀ m i j, m < nb → i < n → j < n →
       cell3 h' batch m i j = Some (cell_mask n d m i j) ∧
       ∀ k, k < nd →
         cell4 h' distance_matrix m i j k
         = cell_vector self n d m i j !! k).
Proof.
  pose proof float_array_buffer as Hbuf.
  pose proof float_array_length as Hlen.
  pose proof (base_batch_lt h batch d Hbuf) as Hbl.
  destruct (batch_to_feed_dict_run self h batch nb n d Hshape Hbuf Hlen Hnd)
    as (h' & Hrun & Hsize & Hframe & mb & db & Hmb & Hdb & Hlmb & Hldb
        & _ & Hdone).
  exists h'. split_and!; [done|done|..].
  - intros l Hl Hne. rewrite Hframe by lia.
    unfold allocated. by rewrite lookup_app_l.
  - intros m i Hm Hi.
    assert (stacked_shape nb n = [nb; n]) as Hst
      by (unfold stacked_shape; rewrite decide_False by lia; done).
    assert ((diag d n n <$> seq 0 nb) !! m = Some (diag d n n m)) as Hrow
      by (by rewrite list_lookup_fmap, lookup_seq_lt).
    unfold cell2, int_cell2. cbn [shape base]. rewrite Hst.
    rewrite !Hframe by lia. unfold allocated.
    rewrite !lookup_app_r by lia.
    replace (length h - length h) with 0 by lia.
    replace (length h + 1 - length h) with 1 by lia. cbn [lookup list_lookup].
    split.
    + rewrite list_lookup_fmap.
      rewrite (concat_lookup_uniform _ n m i (diag d n n m)); [|..|done].
      * by rewrite diag_lookup.
      * apply Forall_fmap, Forall_forall. intros x _. cbn. apply diag_length.
      * done.
    + rewrite (concat_lookup_uniform _ n m i (recover <$> diag d n n m));
        [|..|done].
      * by rewrite list_lookup_fmap, diag_lookup.
      * apply Forall_fmap, Forall_fmap, Forall_forall. intros x _. cbn.
        rewrite length_fmap. apply diag_length.
      * by rewrite list_lookup_fmap, Hrow.
  - intros m i j Hm Hi Hj.
    pose proof (idx3_bound nb n m i j Hm Hi Hj) as Hp.
    destruct (Hdone m i j Hi Hj Hp) as [Hmask Hvec].
    split.
    + unfold cell3. by rewrite Hshape, Hmb.
    + intros k Hk. unfold cell4. cbn [shape base]. rewrite Hdb.
      by apply Hvec.
Qed.

End observed.

(** ** Pairs of atoms *)

Lemma fle0_not_fgt0 v : fle0 v = true → fgt0 v = false.
Proof.
  destruct v as [r| | |]; cbn; try done.
  intros Hle%bool_decide_eq_true. apply bool_decide_eq_false.
  apply Rle_not_lt. done.
Qed.

Lemma interacts_diagonal v i : interacts v i i = false.
Proof.
  unfold interacts. rewrite (bool_decide_eq_false_2 (i ≠ i)) by naive_solver.
  apply andb_false_r.
Qed.

Lemma interacts_nonpositive v i j : fle0 v = true → interacts v i j = false.
Proof. intros Hv. unfold interacts. by rewrite fle0_not_fgt0. Qed.

Lemma interacts_positive v i j : fgt0 v = true → i ≠ j → interacts v i j = true.
Proof.
  intros Hv Hij. unfold interacts. by rewrite Hv, bool_decide_eq_true_2.
Qed.

Lemma interacts_sym v i j : interacts v i j = interacts v j i.
Proof. unfold interacts. f_equal. apply bool_decide_ext. naive_solver. Qed.

Lemma expansion_sym self n d m i j v :
  expansion self n d m i j v = expansion self n d m j i v.
Proof. unfold expansion. by rewrite Z.mul_comm. Qed.

(** C4: for every molecule and every pair of atoms that is on the diagonal
    or whose input Coulomb value is <= 0, the call returns (nothing is
    raised), the expanded feature vector of the pair is all zero and its
    entry of the distance mask is 0. *)
Theorem nonpositive_or_diagonal_zeroed self (h : heap) batch nb n d :
  shape batch = [nb; n; n] → float_array h batch d →
  (1 ≤ n_distance self)%Z →
  ∃ fd h' dm mask,
    batch_to_feed_dict self batch h = Ok (fd, h') ∧
    fd !! distance_matrix_placeholder = Some dm ∧
    fd !! distance_matrix_mask_placeholder = Some mask ∧
    ∀ m i j v, m < nb → i < n → j < n →
      cell3 h batch m i j = Some v →
      i = j ∨ fle0 v = true →
      cell3 h' mask m i j = Some zero ∧
      ∀ k, k < Z.to_nat (n_distance self) →
        cell4 h' dm m i j k = Some zero.
Proof.
  intros Hshape Harray Hnd.
  destruct (batch_to_feed_dict_cells self h batch nb n d Hshape Harray Hnd)
    as (h' & Hrun & _ & _ & _ & Hcells).
  eexists _, h', _, _. split_and!; [exact Hrun|done|done|].
  intros m i j v Hm Hi Hj Hv Hcase.
  destruct (Hcells m i j Hm Hi Hj) as [Hmask Hvec].
  apply (input_cell h batch nb n d Hshape Harray) in Hv.
  assert (interacts v i j = false) as Hno.
  { destruct Hcase as [->|Hle];
      [apply interacts_diagonal|by apply interacts_nonpositive]. }
  split.
  - rewrite Hmask. unfold cell_mask. by rewrite Hv, Hno.
  - intros k Hk. rewrite Hvec by done.
    unfold cell_vector. cbn zeta. rewrite Hv, Hno.
    by apply lookup_replicate_2.
Qed.

Lemma nonpositive_or_diagonal_zeroed_witness :
  shape small_batch = [1; 2; 2] ∧
  float_array (small_heap 0.5 (-1) 0 0.5) small_batch
    [Fin 0.5; Fin (-1); Fin 0; Fin 0.5] ∧
  (1 ≤ n_distance small_topology)%Z ∧
  ∃ fd h' dm mask,
    batch_to_feed_dict small_topology small_batch (small_heap 0.5 (-1) 0 0.5)
      = Ok (fd, h') ∧
    fd !! distance_matrix_placeholder = Some dm ∧
    fd !! distance_matrix_mask_placeholder = Some mask ∧
    ∀ m i j v, m < 1 → i < 2 → j < 2 →
      cell3 (small_heap 0.5 (-1) 0 0.5) small_batch m i j = Some v →
      i = j ∨ fle0 v = true →
      cell3 h' mask m i j = Some zero ∧
      ∀ k, k < Z.to_nat (n_distance small_topology) →
        cell4 h' dm m i j k = Some zero.
Proof.
  assert (shape small_batch = [1; 2; 2]) as Hshape by reflexivity.
  assert (float_array (small_heap 0.5 (-1) 0 0.5) small_batch
            [Fin 0.5; Fin (-1); Fin 0; Fin 0.5]) as Harray
    by (split; reflexivity).
  assert (1 ≤ n_distance small_topology)%Z as Hnd by (cbn; lia).
  split_and!; [exact Hshape|exact Harray|exact Hnd|].
  exact (nonpositive_or_diagonal_zeroed small_topology _ small_batch 1 2 _
           Hshape Harray Hnd).
Defined.




(** C10: if every Coulomb matrix of the batch is symmetric, the expanded
    distance tensor and the distance mask are symmetric in the atom
    indices. *)
Theorem symmetric_batch_symmetric_encoding self (h : heap) batch nb n d :
  shape batch = [nb; n; n] → float_array h batch d →
  (1 ≤ n_distance self)%Z →
  (∀ m i j, m < nb → i < n → j < n →
     cell3 h batch m i j = cell3 h batch m j i) →
  ∃ fd h' dm mask,
    batch_to_feed_dict self batch h = Ok (fd, h') ∧
    fd !! distance_matrix_placeholder = Some dm ∧
    fd !! distance_matrix_mask_placeholder = Some mask ∧
    ∀ m i j, m < nb → i < n → j < n →
      is_Some (cell3 h' mask m i j) ∧
      cell3 h' mask m i j = cell3 h' mask m j i ∧
      ∀ k, k < Z.to_nat (n_distance self) →
        is_Some (cell4 h' dm m i j k) ∧
        cell4 h' dm m i j k = cell4 h' dm m j i k.
Proof.
  intros Hshape Harray Hnd Hsym.
  destruct (batch_to_feed_dict_cells self h batch nb n d Hshape Harray Hnd)
    as (h' & Hrun & _ & _ & _ & Hcells).
  eexists _, h', _, _. split_and!; [exact Hrun|done|done|].
  intros m i j Hm Hi Hj.
  destruct (Hcells m i j Hm Hi Hj) as [Hmask Hvec].
  destruct (Hcells m j i Hm Hj Hi) as [Hmask' Hvec'].
  assert (d !!! idx3 n n m i j = d !!! idx3 n n m j i) as Hv.
  { specialize (Hsym m i j Hm Hi Hj).
    rewrite (input_cell_defined h batch nb n d Hshape Harray m i j) in Hsym
      by done.
    rewrite (input_cell_defined h batch nb n d Hshape Harray m j i) in Hsym
      by done.
    by injection Hsym. }
  assert (cell_mask n d m i j = cell_mask n d m j i) as Hm_eq.
  { unfold cell_mask. by rewrite Hv, interacts_sym. }
  assert (cell_vector self n d m i j = cell_vector self n d m j i) as Hv_eq.
  { unfold cell_vector. cbn zeta.
    by rewrite Hv, interacts_sym, expansion_sym. }
  split_and!.
  - by rewrite Hmask.
  - by rewrite Hmask, Hmask', Hm_eq.
  - intros k Hk. rewrite Hvec, Hvec' by done. split; [|by rewrite Hv_eq].
    apply lookup_lt_is_Some_2.
    by rewrite cell_vector_length.
Qed.

Lemma symmetric_batch_symmetric_encoding_witness :
  shape small_batch = [1; 2; 2] ∧
  float_array (small_heap 0.5 2 2 0.5) small_batch
    [Fin 0.5; Fin 2; Fin 2; Fin 0.5] ∧
  (1 ≤ n_distance small_topology)%Z ∧
  (∀ m i j, m < 1 → i < 2 → j < 2 →
     cell3 (small_heap 0.5 2 2 0.5) small_batch m i j
     = cell3 (small_heap 0.5 2 2 0.5) small_batch m j i) ∧
  ∃ fd h' dm mask,
    batch_to_feed_dict small_topology small_batch (small_heap 0.5 2 2 0.5)
      = Ok (fd, h') ∧
    fd !! distance_matrix_placeholder = Some dm ∧
    fd !! distance_matrix_mask_placeholder = Some mask ∧
    ∀ m i j, m < 1 → i < 2 → j < 2 →
      is_Some (cell3 h' mask m i j) ∧
      cell3 h' mask m i j = cell3 h' mask m j i ∧
      ∀ k, k < Z.to_nat (n_distance small_topology) →
        is_Some (cell4 h' dm m i j k) ∧
        cell4 h' dm m i j k = cell4 h' dm m j i k.
Proof.
  assert (shape small_batch = [1; 2; 2]) as Hshape by reflexivity.
  assert (float_array (small_heap 0.5 2 2 0.5) small_batch
            [Fin 0.5; Fin 2; Fin 2; Fin 0.5]) as Harray
    by (split; reflexivity).
  assert (1 ≤ n_distance small_topology)%Z as Hnd by (cbn; lia).
  assert (∀ m i j, m < 1 → i < 2 → j < 2 →
            cell3 (small_heap 0.5 2 2 0.5) small_batch m i j
            = cell3 (small_heap 0.5 2 2 0.5) small_batch m j i) as Hsym.
  { intros m i j Hm Hi Hj.
    destruct m as [|m]; [|lia].
    destruct i as [|[|i]]; [| |lia]; destruct j as [|[|j]]; [| |lia| | |lia];
      reflexivity. }
  split_and!; [exact Hshape|exact Harray|exact Hnd|exact Hsym|].
  exact (symmetric_batch_symmetric_encoding small_topology _ small_batch 1 2 _
           Hshape Harray Hnd Hsym).
Defined.

(** ** Atoms *)








(** ** The input batch after the call *)

(** C1 at the batch [[[0.5, 2], [2, 0.5]]]: the distance mask returned is a
    handle on the buffer of the input batch, and after the call the input
    batch holds the mask [[[0, 1], [1, 0]]]. *)
Theorem batch_overwritten_by_mask :
  ∃ fd h' mask,
    batch_to_feed_dict small_topology small_batch (small_heap 0.5 2 2 0.5)
      = Ok (fd, h') ∧
    fd !! distance_matrix_mask_placeholder = Some mask ∧
    base mask = base small_batch ∧
    cell3 (small_heap 0.5 2 2 0.5) small_batch 0 0 0 = Some (Fin 0.5) ∧
    cell3 (small_heap 0.5 2 2 0.5) small_batch 0 0 1 = Some (Fin 2) ∧
    cell3 (small_heap 0.5 2 2 0.5) small_batch 0 1 0 = Some (Fin 2) ∧
    cell3 (small_heap 0.5 2 2 0.5) small_batch 0 1 1 = Some (Fin 0.5) ∧
    cell3 h' small_batch 0 0 0 = Some zero ∧
    cell3 h' small_batch 0 0 1 = Some one ∧
    cell3 h' small_batch 0 1 0 = Some one ∧
    cell3 h' small_batch 0 1 1 = Some zero.
Proof.
  destruct (batch_to_feed_dict_cells small_topology
              (small_heap 0.5 2 2 0.5) small_batch 1 2
              [Fin 0.5; Fin 2; Fin 2; Fin 0.5])
    as (h' & Hrun & _ & _ & _ & Hcells);
    [reflexivity|by split|cbn; lia|].
  eexists _, h', _.
  split_and!; [exact Hrun|done|done|done|done|done|done|..].
  - destruct (Hcells 0 0 0) as [-> _]; [lia..|].
    unfold cell_mask. by rewrite interacts_diagonal.
  - destruct (Hcells 0 0 1) as [-> _]; [lia..|].
    unfold cell_mask. rewrite interacts_positive; [done| |done].
    cbn. apply bool_decide_eq_true_2. lra.
  - destruct (Hcells 0 1 0) as [-> _]; [lia..|].
    unfold cell_mask. rewrite interacts_positive; [done| |done].
    cbn. apply bool_decide_eq_true_2. lra.
  - destruct (Hcells 0 1 1) as [-> _]; [lia..|].
    unfold cell_mask. by rewrite interacts_diagonal.
Qed.

(** * Further properties of the Gaussian expansion *)

Section gauss_shape.

Local Open Scope R_scope.
























End gauss_shape.

(** * Further properties of the dictionary merge *)

Section merge_more.

Context {K V : Type} `{Countable K}.
Implicit Types (h : list (gmap K V)) (l : list loc).
Implicit Types (ds : list (gmap K V)) (acc d : gmap K V).

(** The fold of [merge_dicts], with the addresses it allocates: the merged
    dictionary is always the object allocated last. *)
Lemma merge_dicts_fold_fresh l h0 hc merged acc :
  Forall (λ x, x < length h0) l →
  (∀ x, x < length h0 → hc !! x = h0 !! x) →
  hc !! merged = Some acc → S merged = length hc →
  ∃ m' h', foldl (λ '(merged, h) dict, merge_two_dicts merged dict h)
             (merged, hc) l = (m', h') ∧
           S m' = length h' ∧
           length h' = length hc + length l ∧
           h' !! m' = Some (merged_of ((h0 !!!.) <$> l) acc) ∧
           (∀ x, x < length h0 → h' !! x = h0 !! x).
Proof.
  intros Hl. revert hc merged acc.
  induction Hl as [|x l Hx Hl IH]; intros hc merged acc Hpre Hm Hlast;
    cbn [foldl fmap list_fmap].
  - exists merged, hc. split_and!; [done|done|cbn; lia|done|done].
  - destruct (lookup_lt_is_Some_2 h0 x Hx) as [b Hb].
    assert (hc !! x = Some b) as Hcx by (by rewrite Hpre).
    rewrite (merge_two_dicts_run merged x hc acc b) by done.
    assert (x < length hc) by (by eapply lookup_lt_Some).
    destruct (IH (hc ++ [b ∪ acc]) (length hc) (b ∪ acc))
      as (m' & h' & Hrun & Hlast' & Hlen & Hres & Hframe).
    + intros y Hy. destruct (lookup_lt_is_Some_2 h0 y Hy) as [c Hc].
      assert (hc !! y = Some c) as Hcy by (by rewrite Hpre).
      apply lookup_lt_Some in Hcy. rewrite lookup_app_l by done.
      by apply Hpre.
    + by rewrite lookup_app_r, Nat.sub_diag.
    + rewrite length_app. cbn. lia.
    + exists m', h'. split_and!; [done|done| |
        by rewrite (list_lookup_total_correct _ _ _ Hb)|done].
      rewrite Hlen, length_app. cbn. lia.
Qed.

Lemma merge_dicts_run l h :
  Forall (λ x, x < length h) l →
  ∃ h', merge_dicts l h = (length h + length l, h') ∧
        length h' = length h + length l + 1 ∧
        h' !! (length h + length l)
        = Some (merged_of ((h !!!.) <$> l) ∅) ∧
        (∀ x, x < length h → h' !! x = h !! x).
Proof.
  intros Hl. unfold merge_dicts, dict_new.
  destruct (merge_dicts_fold_fresh l h (h ++ [∅]) (length h) ∅ Hl)
    as (m' & h' & Hrun & Hlast & Hlen & Hres & Hframe).
  { intros x Hx. by rewrite lookup_app_l. }
  { by rewrite lookup_app_r, Nat.sub_diag. }
  { rewrite length_app. cbn. lia. }
  rewrite length_app in Hlen. cbn in Hlen.
  assert (m' = length h + length l) as -> by lia.
  exists h'. split_and!; [done|lia|done|done].
Qed.

Lemma merged_of_app ds1 ds2 acc :
  merged_of (ds1 ++ ds2) acc = merged_of ds2 (merged_of ds1 acc).
Proof. unfold merged_of. apply foldl_app. Qed.

(** X8: [merge_two_dicts(x, y)] returns a dictionary that did not exist
    before the call.  It holds every entry of [y], and the entries of [x]
    whose key [y] lacks; [x], [y] and every other dictionary are left as
    they were, also when [x] and [y] are the same object. *)
Theorem merge_two_dicts_copies h (x y : loc) a b :
  h !! x = Some a → h !! y = Some b →
  ∃ z h' c,
    merge_two_dicts x y h = (z, h') ∧
    h !! z = None ∧
    h' !! z = Some c ∧
    (∀ k, c !! k = match b !! k with Some v => Some v | None => a !! k end) ∧
    (∀ w, w < length h → h' !! w = h !! w).
Proof.
  intros Hx Hy. exists (length h), (h ++ [b ∪ a]), (b ∪ a).
  split_and!.
  - by apply merge_two_dicts_run.
  - by apply lookup_ge_None_2.
  - by rewrite lookup_app_r, Nat.sub_diag.
  - intros k. rewrite lookup_union. by destruct (b !! k), (a !! k).
  - intros w Hw. by rewrite lookup_app_l.
Qed.

(** X9: [merge_dicts] never returns one of its inputs: the result is a
    dictionary allocated by the call, [len(l) + 1] dictionaries are
    allocated in all, the empty list gives a new empty dictionary, and a
    one-element list gives a copy of its element. *)
Theorem merge_dicts_returns_new_dict l h :
  Forall (λ x, x < length h) l →
  ∃ merged h' result,
    merge_dicts l h = (merged, h') ∧
    h !! merged = None ∧ (merged ∉ l) ∧
    length h' = length h + length l + 1 ∧
    h' !! merged = Some result ∧
    (l = [] → result = ∅) ∧
    (∀ x, l = [x] → h !! x = Some result).
Proof.
  intros Hl. destruct (merge_dicts_run l h Hl) as (h' & Hrun & Hlen & Hres & _).
  eexists _, h', _. split_and!; [exact Hrun| | |done|exact Hres|..].
  - apply lookup_ge_None_2. lia.
  - intros Hin. rewrite Forall_forall in Hl. apply Hl in Hin. lia.
  - by intros ->.
  - intros x ->. apply Forall_inv in Hl. cbn.
    rewrite (right_id_L ∅ (∪)).
    destruct (lookup_lt_is_Some_2 h x Hl) as [a Ha].
    by rewrite (list_lookup_total_correct _ _ _ Ha).
Qed.

(** X10: merging composes: merging [l1 ++ l2] gives the same dictionary as
    merging [l1] first and then merging that result with [l2]. *)
Theorem merge_dicts_app l1 l2 h :
  Forall (λ x, x < length h) l1 → Forall (λ x, x < length h) l2 →
  ∃ m h' m1 h1 m2 h2 result,
    merge_dicts (l1 ++ l2) h = (m, h') ∧
    merge_dicts l1 h = (m1, h1) ∧
    merge_dicts (m1 :: l2) h1 = (m2, h2) ∧
    h' !! m = Some result ∧ h2 !! m2 = Some result.
Proof.
  intros Hl1 Hl2.
  destruct (merge_dicts_run (l1 ++ l2) h) as (h' & Hrun & _ & Hres & _);
    [by apply Forall_app|].
  destruct (merge_dicts_run l1 h Hl1) as (h1 & Hrun1 & Hlen1 & Hres1 & Hframe1).
  destruct (merge_dicts_run (length h + length l1 :: l2) h1)
    as (h2 & Hrun2 & _ & Hres2 & _).
  { constructor; [lia|]. eapply Forall_impl; [exact Hl2|]. cbn. lia. }
  eexists _, h', _, h1, _, h2, _.
  split_and!; [exact Hrun|exact Hrun1|exact Hrun2|exact Hres|].
  rewrite Hres2. f_equal. rewrite fmap_app, merged_of_app.
  cbn [fmap list_fmap merged_of foldl].
  rewrite (list_lookup_total_correct _ _ _ Hres1), (right_id_L ∅ (∪)).
  fold (merged_of ((h1 !!!.) <$> l2) (merged_of ((h !!!.) <$> l1) ∅)).
  f_equal. apply Forall_fmap_ext.
  eapply Forall_impl; [exact Hl2|]. intros x Hx. cbn in *.
  destruct (lookup_lt_is_Some_2 h x Hx) as [a Ha].
  rewrite (list_lookup_total_correct _ _ _ Ha).
  apply list_lookup_total_correct. by rewrite Hframe1.
Qed.

Lemma pairwise_disjoint_Permutation ds ds' :
  ds ≡ₚ ds' → pairwise_disjoint ds → pairwise_disjoint ds'.
Proof.
  induction 1 as [|d ds ds' Hperm IH|d1 d2 ds|ds1 ds2 ds3 _ IH1 _ IH2];
    intros Hpd.
  - done.
  - inversion_clear Hpd as [|?? Hd Hds]. constructor; [|by apply IH].
    by rewrite <- Hperm.
  - inversion_clear Hpd as [|?? Hd2 Hds]. inversion_clear Hds as [|?? Hd1 Hds'].
    inversion_clear Hd2 as [|?? Hd21 Hd2']. repeat constructor; done.
  - by apply IH2, IH1.
Qed.

Lemma merged_of_Permutation ds ds' acc :
  ds ≡ₚ ds' → pairwise_disjoint ds → merged_of ds acc = merged_of ds' acc.
Proof.
  intros Hperm. revert acc.
  induction Hperm as [|d ds ds' Hperm IH|d1 d2 ds|ds1 ds2 ds3 Hp1 IH1 _ IH2];
    intros acc Hpd.
  - done.
  - inversion_clear Hpd as [|?? Hd Hds]. cbn. by apply IH.
  - inversion_clear Hpd as [|?? Hd2 Hds]. inversion_clear Hd2 as [|?? Hd21 _].
    cbn. f_equal.
    rewrite !(assoc_L (∪)). f_equal. by apply map_union_comm.
  - rewrite IH1 by done. apply IH2.
    by apply (pairwise_disjoint_Permutation ds1).
Qed.

(** X11: when the key sets of the dictionaries are pairwise disjoint, as
    the feed dictionaries of distinct components are, no entry is replaced:
    the result holds exactly the entries of the inputs, and it does not
    depend on the order of the list. *)
Theorem merge_dicts_disjoint l l' h :
  Forall (λ x, x < length h) l → l ≡ₚ l' →
  pairwise_disjoint ((h !!!.) <$> l) →
  ∃ m h1 m' h2 result,
    merge_dicts l h = (m, h1) ∧ merge_dicts l' h = (m', h2) ∧
    h1 !! m = Some result ∧ h2 !! m' = Some result ∧
    ∀ k v, result !! k = Some v ↔
           ∃ x d, x ∈ l ∧ h !! x = Some d ∧ d !! k = Some v.
Proof.
  intros Hl Hperm Hpd.
  assert (Forall (λ x, x < length h) l') as Hl' by (by rewrite <- Hperm).
  destruct (merge_dicts_run l h Hl) as (h1 & Hrun1 & _ & Hres1 & _).
  destruct (merge_dicts_run l' h Hl') as (h2 & Hrun2 & _ & Hres2 & _).
  eexists _, h1, _, h2, _.
  split_and!; [exact Hrun1|exact Hrun2|exact Hres1| |].
  - rewrite Hres2. f_equal. symmetry. apply merged_of_Permutation; [|done].
    by apply fmap_Permutation.
  - intros k v. rewrite merged_of_lookup. split.
    + intros [(ds1 & d & ds2 & Heq & Hd & _)|[_ Hemp]];
        [|by rewrite lookup_empty in Hemp].
      assert (d ∈ (h !!!.) <$> l) as Hin
        by (rewrite Heq; apply elem_of_app; right; by left).
      apply list_elem_of_fmap in Hin as (x & -> & Hx).
      exists x, (h !!! x). split_and!; [done| |done].
      apply list_lookup_lookup_total_lt.
      rewrite Forall_forall in Hl. by apply Hl.
    + intros (x & d & Hx & Hd & Hk).
      assert (d ∈ (h !!!.) <$> l) as Hin.
      { apply list_elem_of_fmap. exists x. split; [|done].
        symmetry. by apply list_lookup_total_correct. }
      apply elem_of_Permutation in Hin as [ds' Hds'].
      rewrite <- merged_of_lookup.
      rewrite (merged_of_Permutation _ (d :: ds')) by done.
      cbn. fold (merged_of ds' (d ∪ ∅)). apply merged_of_lookup. right.
      apply (pairwise_disjoint_Permutation _ _ Hds') in Hpd.
      inversion_clear Hpd as [|?? Hdisj _]. split.
      * eapply Forall_impl; [exact Hdisj|]. intros d' Hd'. cbn in Hd'.
        by eapply map_disjoint_Some_l.
      * by apply lookup_union_Some_l.
Qed.

End merge_more.

Lemma merge_two_dicts_copies_witness :
  two_dicts !! 0 = Some {[1 := 10]} ∧
  two_dicts !! 1 = Some (<[2 := 30]> {[1 := 20]}) ∧
  ∃ z h' c,
    merge_two_dicts 0 1 two_dicts = (z, h') ∧
    two_dicts !! z = None ∧
    h' !! z = Some c ∧
    (∀ k, c !! k = match (<[2 := 30]> {[1 := 20]} : gmap nat nat) !! k with
                   | Some v => Some v
                   | None => ({[1 := 10]} : gmap nat nat) !! k
                   end) ∧
    (∀ w, w < length two_dicts → h' !! w = two_dicts !! w).
Proof.
  assert (two_dicts !! 0 = Some {[1 := 10]}) as Hx by reflexivity.
  assert (two_dicts !! 1 = Some (<[2 := 30]> {[1 := 20]})) as Hy
    by reflexivity.
  split_and!; [exact Hx|exact Hy|].
  exact (merge_two_dicts_copies two_dicts 0 1 _ _ Hx Hy).
Defined.

Lemma merge_dicts_returns_new_dict_witness :
  Forall (λ x, x < length two_dicts) [1] ∧
  ∃ merged h' result,
    merge_dicts [1] two_dicts = (merged, h') ∧
    two_dicts !! merged = None ∧ (merged ∉ [1]) ∧
    length h' = length two_dicts + length [1] + 1 ∧
    h' !! merged = Some result ∧
    ([1] = [] → result = ∅) ∧
    (∀ x, [1] = [x] → two_dicts !! x = Some result).
Proof.
  assert (Forall (λ x, x < length two_dicts) [1]) as Hl
    by (repeat constructor).
  split; [exact Hl|].
  exact (merge_dicts_returns_new_dict [1] two_dicts Hl).
Defined.

Lemma merge_dicts_app_witness :
  Forall (λ x, x < length two_dicts) [0] ∧
  Forall (λ x, x < length two_dicts) [1] ∧
  ∃ m h' m1 h1 m2 h2 result,
    merge_dicts ([0] ++ [1]) two_dicts = (m, h') ∧
    merge_dicts [0] two_dicts = (m1, h1) ∧
    merge_dicts (m1 :: [1]) h1 = (m2, h2) ∧
    h' !! m = Some result ∧ h2 !! m2 = Some result.
Proof.
  assert (Forall (λ x, x < length two_dicts) [0]) as Hl1
    by (repeat constructor).
  assert (Forall (λ x, x < length two_dicts) [1]) as Hl2
    by (repeat constructor).
  split_and!; [exact Hl1|exact Hl2|].
  exact (merge_dicts_app [0] [1] two_dicts Hl1 Hl2).
Defined.

(** Two dictionaries with no key in common. *)
Lemma merge_dicts_disjoint_witness :
  Forall (λ x, x < length [ ({[1 := 10]} : gmap nat nat); {[2 := 30]} ])
    [0; 1] ∧
  [0; 1] ≡ₚ [1; 0] ∧
  pairwise_disjoint
    (([ ({[1 := 10]} : gmap nat nat); {[2 := 30]} ] !!!.) <$> [0; 1]) ∧
  ∃ m h1 m' h2 result,
    merge_dicts [0; 1] [ ({[1 := 10]} : gmap nat nat); {[2 := 30]} ]
      = (m, h1) ∧
    merge_dicts [1; 0] [ ({[1 := 10]} : gmap nat nat); {[2 := 30]} ]
      = (m', h2) ∧
    h1 !! m = Some result ∧ h2 !! m' = Some result ∧
    ∀ k v, result !! k = Some v ↔
           ∃ x d, x ∈ [0; 1] ∧
                  [ ({[1 := 10]} : gmap nat nat); {[2 := 30]} ] !! x = Some d ∧
                  d !! k = Some v.
Proof.
  assert (Forall (λ x, x < length [ ({[1 := 10]} : gmap nat nat); {[2 := 30]} ])
            [0; 1]) as Hl by (repeat constructor).
  assert ([0; 1] ≡ₚ [1; 0]) as Hperm by apply perm_swap.
  assert (pairwise_disjoint
            (([ ({[1 := 10]} : gmap nat nat); {[2 := 30]} ] !!!.) <$> [0; 1]))
    as Hpd.
  { repeat constructor. cbn. by apply map_disjoint_singleton_l_2. }
  split_and!; [exact Hl|exact Hperm|exact Hpd|].
  exact (merge_dicts_disjoint [0; 1] [1; 0] _ Hl Hperm Hpd).
Defined.

(** * Further properties of the Coulomb-matrix encoder *)

Lemma bind_raise {A B} (m : M A) (f : A → M B) (h : heap) e :
  (m ≫= f) h = Raise e →
  m h = Raise e ∨ ∃ a h', m h = Ok (a, h') ∧ f a h' = Raise e.
Proof.
  unfold mbind, M_bind. destruct (m h) as [[a h']|e'].
  - intros Hf. right. by exists a, h'.
  - intros [= ->]. by left.
Qed.

Lemma for_raise {A} (Q : exn → Prop) (l : list A) (body : A → M ()) :
  (∀ x h e, body x h = Raise e → Q e) →
  ∀ h e, for_ l body h = Raise e → Q e.
Proof.
  intros Hbody. induction l as [|x l IH]; intros h e; cbn [for_].
  - done.
  - intros [Hx|(a & h' & _ & Hrest)]%bind_raise; [by eapply Hbody|].
    by eapply IH.
Qed.

Lemma load_floats_raise l (h : heap) e :
  load_floats l h = Raise e → e = TypeError.
Proof. unfold load_floats. repeat case_match; naive_solver. Qed.

Lemma load_floats_ok l (h h' : heap) d :
  load_floats l h = Ok (d, h') → h' = h ∧ h !! l = Some (FloatBuf d).
Proof. unfold load_floats. repeat case_match; naive_solver. Qed.

Lemma write_floats_raise l off xs (h : heap) e :
  write_floats l off xs h = Raise e → e = TypeError ∨ e = IndexError.
Proof.
  unfold write_floats.
  intros [Hl|(d & h' & _ & Hw)]%bind_raise.
  - left. by eapply load_floats_raise.
  - case_decide; [done|]. right. by injection Hw.
Qed.

Lemma read_float_raise l i (h : heap) e :
  read_float l i h = Raise e → e = TypeError ∨ e = IndexError.
Proof.
  unfold read_float.
  intros [Hl|(d & h' & _ & Hr)]%bind_raise.
  - left. by eapply load_floats_raise.
  - destruct (d !! i); [done|]. right. by injection Hr.
Qed.

(** What one iteration of the innermost loop can raise. *)
Lemma encode_cell_raise self ZiZj batch dm mask nr nc nd im ir ie (h : heap) e :
  (1 ≤ n_distance self)%Z →
  encode_cell self ZiZj batch dm mask nr nc nd im ir ie h = Raise e →
  e = TypeError ∨ e = IndexError ∨ e = ValueError.
Proof.
  intros Hnd. unfold encode_cell.
  intros [Hr|(element & h1 & _ & Hrest)]%bind_raise.
  { apply read_float_raise in Hr as [->| ->]; auto. }
  destruct (fgt0 element && bool_decide (ir ≠ ie)).
  - apply bind_raise in Hrest as [Hz|(zz & h2 & _ & Hrest)].
    { unfold lift, index3 in Hz. repeat case_match; naive_solver. }
    apply bind_raise in Hrest as [Hg|(v & h3 & _ & Hrest)].
    { unfold lift in Hg. by rewrite gauss_expand_ok in Hg by lia. }
    apply bind_raise in Hrest as [Hw|(u & h4 & _ & Hw)].
    + case_decide; [|unfold raise in Hw; injection Hw as <-; auto].
      apply write_floats_raise in Hw as [->| ->]; auto.
    + apply write_floats_raise in Hw as [->| ->]; auto.
  - apply bind_raise in Hrest as [Hw|(u & h4 & _ & Hw)];
      apply write_floats_raise in Hw as [->| ->]; auto.
Qed.

(** What a call can raise, over every topology, batch handle and heap. *)
Lemma batch_to_feed_dict_raise self batch (h : heap) e :
  batch_to_feed_dict self batch h = Raise e →
  e = TypeError ∨ e = IndexError ∨ e = ValueError.
Proof.
  unfold batch_to_feed_dict.
  destruct (shape batch) as [|nb [|nr [|nc [|n3 rest]]]];
    [unfold raise; naive_solver..| |].
  - intros [Hl|(d & h1 & _ & Hrest)]%bind_raise.
    { apply load_floats_raise in Hl. naive_solver. }
    apply bind_raise in Hrest as [Ha|(am & h2 & _ & Hrest)]; [done|].
    apply bind_raise in Hrest as [Ha|(an & h3 & _ & Hrest)]; [done|].
    case_decide; [unfold raise in Hrest; naive_solver|].
    apply bind_raise in Hrest as [Hl|(d' & h4 & _ & Hrest)].
    { apply load_floats_raise in Hl. naive_solver. }
    apply bind_raise in Hrest as [Ha|(dm & h5 & _ & Hrest)]; [done|].
    apply bind_raise in Hrest as [Hloop|(u & h6 & _ & Hret)]; [|done].
    set (Q := λ e : exn, e = TypeError ∨ e = IndexError ∨ e = ValueError).
    apply (for_raise Q _ _) in Hloop; [done|].
    intros im h7 e'. apply (for_raise Q). intros ir h8 e''.
    apply (for_raise Q). intros ie h9 e3.
    apply encode_cell_raise. lia.
  - case_decide; [unfold raise; naive_solver|].
    intros [Ha|(am & h2 & _ & Hrest)]%bind_raise; [done|].
    apply bind_raise in Hrest as [Ha|(an & h3 & _ & Hrest)]; [done|].
    case_decide; [unfold raise in Hrest; naive_solver|].
    apply bind_raise in Hrest as [Ha|(dm & h5 & _ & Hret)]; done.
Qed.

(** X12: [batch_to_feed_dict] never raises [ZeroDivisionError], whatever
    the topology, the batch and the heap: a topology with [n_distance = 0]
    is stopped by [np.concatenate] before [gauss_expand] can divide by
    zero. *)
Theorem batch_to_feed_dict_never_divides_by_zero self batch (h : heap) :
  match batch_to_feed_dict self batch h with
  | Raise ZeroDivisionError => False
  | _ => True
  end.
Proof.
  destruct (batch_to_feed_dict self batch h) as [r|e] eqn:Hrun; [done|].
  apply batch_to_feed_dict_raise in Hrun as [->|[->| ->]]; done.
Qed.

Lemma batch_to_feed_dict_nonpositive self batch (h : heap) nb nr nc d :
  (n_distance self ≤ 0)%Z →
  shape batch = [nb; nr; nc] → h !! base batch = Some (FloatBuf d) →
  batch_to_feed_dict self batch h = Raise ValueError.
Proof.
  intros Hnd Hshape Hbuf. unfold batch_to_feed_dict. rewrite Hshape.
  rewrite (bind_run _ _ h h d) by (by apply load_floats_run).
  erewrite bind_run by apply alloc_run.
  erewrite bind_run by apply alloc_run.
  by rewrite decide_True.
Qed.

(** X13: with [n_distance <= 0] the call never returns, whatever the batch
    holds; on a float64 batch of rank 3 it raises [ValueError], the error of
    [np.concatenate] on an empty list of arrays. *)
Theorem batch_to_feed_dict_needs_centers self batch (h : heap) :
  (n_distance self ≤ 0)%Z →
  (∀ r, batch_to_feed_dict self batch h ≠ Ok r) ∧
  (∀ nb nr nc d,
     shape batch = [nb; nr; nc] → h !! base batch = Some (FloatBuf d) →
     batch_to_feed_dict self batch h = Raise ValueError).
Proof.
  intros Hnd. split; [|intros; by eapply batch_to_feed_dict_nonpositive].
  intros r. unfold batch_to_feed_dict.
  destruct (shape batch) as [|nb [|nr [|nc [|n3 rest]]]]; [done..| |].
  - unfold mbind, M_bind, load_floats.
    destruct (h !! base batch) as [[d|d]|]; [|done..].
    cbn. by rewrite decide_True.
  - case_decide; [done|]. unfold mbind, M_bind. cbn.
    by rewrite decide_True.
Qed.

Lemma batch_to_feed_dict_needs_centers_witness :
  (n_distance {| max_n_atoms := 2; n_distance := 0;
                 distance_min := -1; distance_max := 18 |} ≤ 0)%Z ∧
  (∀ r, batch_to_feed_dict
          {| max_n_atoms := 2; n_distance := 0;
             distance_min := -1; distance_max := 18 |}
          small_batch (small_heap 0.5 2 2 0.5) ≠ Ok r) ∧
  (∀ nb nr nc d,
     shape small_batch = [nb; nr; nc] →
     small_heap 0.5 2 2 0.5 !! base small_batch = Some (FloatBuf d) →
     batch_to_feed_dict
       {| max_n_atoms := 2; n_distance := 0;
          distance_min := -1; distance_max := 18 |}
       small_batch (small_heap 0.5 2 2 0.5) = Raise ValueError).
Proof.
  assert (n_distance {| max_n_atoms := 2; n_distance := 0;
                        distance_min := -1; distance_max := 18 |} ≤ 0)%Z
    as Hnd by (cbn; lia).
  split; [exact Hnd|].
  exact (batch_to_feed_dict_needs_centers _ small_batch
           (small_heap 0.5 2 2 0.5) Hnd).
Defined.


Lemma cell_mask_binary n d m i j :
  cell_mask n d m i j = one ∨ cell_mask n d m i j = zero.
Proof. unfold cell_mask. destruct (interacts _ _ _); auto. Qed.

(** X14: the distance mask returned is the input array itself.  After the
    call every cell of the caller's batch holds the mask: 1 where the
    Coulomb value was positive and off the diagonal, 0 everywhere else, nan
    values included. *)
Theorem batch_replaced_by_mask self (h : heap) batch nb n d :
  shape batch = [nb; n; n] → float_array h batch d →
  (1 ≤ n_distance self)%Z →
  ∃ fd h',
    batch_to_feed_dict self batch h = Ok (fd, h') ∧
    fd !! distance_matrix_mask_placeholder = Some batch ∧
    ∀ m i j v, m < nb → i < n → j < n →
      cell3 h batch m i j = Some v →
      cell3 h' batch m i j
      = Some (if fgt0 v && bool_decide (i ≠ j) then one else zero).
Proof.
  intros Hshape Harray Hnd.
  destruct (batch_to_feed_dict_cells self h batch nb n d Hshape Harray Hnd)
    as (h' & Hrun & _ & _ & _ & Hcells).
  eexists _, h'. split_and!; [exact Hrun|done|].
  intros m i j v Hm Hi Hj Hv.
  destruct (Hcells m i j Hm Hi Hj) as [-> _].
  apply (input_cell h batch nb n d Hshape Harray) in Hv.
  unfold cell_mask, interacts. by rewrite Hv.
Qed.

Lemma batch_replaced_by_mask_witness :
  shape small_batch = [1; 2; 2] ∧
  float_array (small_heap 0.5 2 2 0.5) small_batch
    [Fin 0.5; Fin 2; Fin 2; Fin 0.5] ∧
  (1 ≤ n_distance small_topology)%Z ∧
  ∃ fd h',
    batch_to_feed_dict small_topology small_batch (small_heap 0.5 2 2 0.5)
      = Ok (fd, h') ∧
    fd !! distance_matrix_mask_placeholder = Some small_batch ∧
    ∀ m i j v, m < 1 → i < 2 → j < 2 →
      cell3 (small_heap 0.5 2 2 0.5) small_batch m i j = Some v →
      cell3 h' small_batch m i j
      = Some (if fgt0 v && bool_decide (i ≠ j) then one else zero).
Proof.
  assert (shape small_batch = [1; 2; 2]) as Hshape by reflexivity.
  assert (float_array (small_heap 0.5 2 2 0.5) small_batch
            [Fin 0.5; Fin 2; Fin 2; Fin 0.5]) as Harray
    by (split; reflexivity).
  assert (1 ≤ n_distance small_topology)%Z as Hnd by (cbn; lia).
  split_and!; [exact Hshape|exact Harray|exact Hnd|].
  exact (batch_replaced_by_mask small_topology _ small_batch 1 2 _
           Hshape Harray Hnd).
Defined.



(** X16: the dictionary returned has four keys; the three placeholders of
    [get_input_placeholders()] are among them, and so is the atom mask
    placeholder, which that list leaves out. *)
Theorem feed_dict_keys self (h : heap) batch nb n d :
  shape batch = [nb; n; n] → float_array h batch d →
  (1 ≤ n_distance self)%Z →
  ∃ fd h',
    batch_to_feed_dict self batch h = Ok (fd, h') ∧
    dom fd = list_to_set
               (atom_mask_placeholder
                :: DTNNPlaceholders.get_input_placeholders) ∧
    (atom_mask_placeholder ∉ DTNNPlaceholders.get_input_placeholders) ∧
    Forall (λ p, is_Some (fd !! p)) DTNNPlaceholders.get_input_placeholders.
Proof.
  intros Hshape Harray Hnd.
  destruct (batch_to_feed_dict_cells self h batch nb n d Hshape Harray Hnd)
    as (h' & Hrun & _).
  eexists _, h'. split_and!; [exact Hrun|..].
  - unfold feed_dict. apply set_eq. intros p.
    rewrite elem_of_dom, elem_of_list_to_set.
    split; intros _.
    + unfold DTNNPlaceholders.get_input_placeholders, DTNNPlaceholders.inputs,
        DTNNPlaceholders.topology. cbn [app].
      destruct p; rewrite !elem_of_cons; auto 6.
    + destruct p; by eexists.
  - unfold DTNNPlaceholders.get_input_placeholders, DTNNPlaceholders.inputs,
      DTNNPlaceholders.topology.
    cbn [app]. rewrite !not_elem_of_cons.
    split_and!; try done. apply not_elem_of_nil.
  - repeat constructor; by eexists.
Qed.

Lemma feed_dict_keys_witness :
  shape small_batch = [1; 2; 2] ∧
  float_array (small_heap 0.5 2 2 0.5) small_batch
    [Fin 0.5; Fin 2; Fin 2; Fin 0.5] ∧
  (1 ≤ n_distance small_topology)%Z ∧
  ∃ fd h',
    batch_to_feed_dict small_topology small_batch (small_heap 0.5 2 2 0.5)
      = Ok (fd, h') ∧
    dom fd = list_to_set
               (atom_mask_placeholder
                :: DTNNPlaceholders.get_input_placeholders) ∧
    (atom_mask_placeholder ∉ DTNNPlaceholders.get_input_placeholders) ∧
    Forall (λ p, is_Some (fd !! p)) DTNNPlaceholders.get_input_placeholders.
Proof.
  assert (shape small_batch = [1; 2; 2]) as Hshape by reflexivity.
  assert (float_array (small_heap 0.5 2 2 0.5) small_batch
            [Fin 0.5; Fin 2; Fin 2; Fin 0.5]) as Harray
    by (split; reflexivity).
  assert (1 ≤ n_distance small_topology)%Z as Hnd by (cbn; lia).
  split_and!; [exact Hshape|exact Harray|exact Hnd|].
  exact (feed_dict_keys small_topology _ small_batch 1 2 _
           Hshape Harray Hnd).
Defined.

Lemma cell_mask_fixed n d mb m i j :
  mb !!! idx3 n n m i j = cell_mask n d m i j →
  cell_mask n mb m i j = cell_mask n d m i j.
Proof.
  intros Hmb. unfold cell_mask at 1. rewrite Hmb. unfold cell_mask, interacts.
  destruct (fgt0 (d !!! idx3 n n m i j)); cbn [andb].
  - destruct (bool_decide (i ≠ j)); cbn.
    + by rewrite bool_decide_eq_true_2 by lra.
    + by rewrite andb_false_r.
  - cbn. by rewrite bool_decide_eq_false_2 by lra.
Qed.

(** X17: a second call on the same batch array no longer sees the Coulomb
    matrices: the first call has left the mask in the batch, whose diagonal
    is zero, so the second call recovers the atomic number 0 and the atom
    mask 0 for every atom, and it leaves the mask in the batch as it is. *)
Theorem second_call_sees_the_mask self (h : heap) batch nb n d :
  shape batch = [nb; n; n] → float_array h batch d →
  (1 ≤ n_distance self)%Z →
  ∃ fd1 h1 fd2 h2 numbers mask,
    batch_to_feed_dict self batch h = Ok (fd1, h1) ∧
    batch_to_feed_dict self batch h1 = Ok (fd2, h2) ∧
    fd2 !! atom_number_placeholder = Some numbers ∧
    fd2 !! atom_mask_placeholder = Some mask ∧
    ∀ m i, m < nb → i < n →
      int_cell2 h2 numbers m i = Some 0%Z ∧
      cell2 h2 mask m i = Some zero ∧
      ∀ j, j < n →
        is_Some (cell3 h1 batch m i j) ∧
        cell3 h2 batch m i j = cell3 h1 batch m i j.
Proof.
  intros Hshape Harray Hnd.
  destruct (batch_to_feed_dict_run self h batch nb n d Hshape
              (float_array_buffer h batch d Harray)
              (float_array_length h batch nb n d Hshape Harray) Hnd)
    as (h1 & Hrun1 & _ & _ & mb & db & Hmb & _ & Hlmb & _ & _ & Hdone).
  assert (float_array h1 batch mb) as Harray1.
  { split; [done|]. rewrite Hshape, Hlmb. cbn. lia. }
  assert (∀ m i j, m < nb → i < n → j < n →
            mb !!! idx3 n n m i j = cell_mask n d m i j) as Hmask.
  { intros m i j Hm Hi Hj. apply list_lookup_total_correct.
    apply Hdone; [done..|]. by apply idx3_bound. }
  destruct (batch_to_feed_dict_cells self h1 batch nb n mb Hshape Harray1 Hnd)
    as (h2 & Hrun2 & _ & _ & Hatoms & Hcells).
  eexists _, h1, _, h2, _, _.
  split_and!; [exact Hrun1|exact Hrun2|done|done|].
  intros m i Hm Hi. destruct (Hatoms m i Hm Hi) as [Hsign Hnum].
  unfold atom_at in Hnum. rewrite Hmask in Hsign, Hnum by done.
  unfold cell_mask in Hsign, Hnum.
  rewrite interacts_diagonal in Hsign, Hnum. unfold zero in Hsign, Hnum.
  rewrite fsign_zero in Hsign. rewrite recover_zero in Hnum.
  split_and!; [done|done|].
  intros j Hj. destruct (Hcells m i j Hm Hi Hj) as [-> _].
  rewrite (input_cell_defined h1 batch nb n mb Hshape Harray1) by done.
  split; [done|]. f_equal. rewrite (Hmask m i j) by done.
  by apply cell_mask_fixed, Hmask.
Qed.

Lemma second_call_sees_the_mask_witness :
  shape small_batch = [1; 2; 2] ∧
  float_array (small_heap 0.5 2 2 0.5) small_batch
    [Fin 0.5; Fin 2; Fin 2; Fin 0.5] ∧
  (1 ≤ n_distance small_topology)%Z ∧
  ∃ fd1 h1 fd2 h2 numbers mask,
    batch_to_feed_dict small_topology small_batch (small_heap 0.5 2 2 0.5)
      = Ok (fd1, h1) ∧
    batch_to_feed_dict small_topology small_batch h1 = Ok (fd2, h2) ∧
    fd2 !! atom_number_placeholder = Some numbers ∧
    fd2 !! atom_mask_placeholder = Some mask ∧
    ∀ m i, m < 1 → i < 2 →
      int_cell2 h2 numbers m i = Some 0%Z ∧
      cell2 h2 mask m i = Some zero ∧
      ∀ j, j < 2 →
        is_Some (cell3 h1 small_batch m i j) ∧
        cell3 h2 small_batch m i j = cell3 h1 small_batch m i j.
Proof.
  assert (shape small_batch = [1; 2; 2]) as Hshape by reflexivity.
  assert (float_array (small_heap 0.5 2 2 0.5) small_batch
            [Fin 0.5; Fin 2; Fin 2; Fin 0.5]) as Harray
    by (split; reflexivity).
  assert (1 ≤ n_distance small_topology)%Z as Hnd by (cbn; lia).
  split_and!; [exact Hshape|exact Harray|exact Hnd|].
  exact (second_call_sees_the_mask small_topology _ small_batch 1 2 _
           Hshape Harray Hnd).
Defined.



(** X19: on an empty batch, of shape [(0, n, n)], the call writes nothing:
    it allocates three empty buffers and returns the atomic numbers and the
    atom mask with the shape [(0,)], not [(0, n)]. *)
Theorem empty_batch self (h : heap) batch n :
  shape batch = [0; n; n] → h !! base batch = Some (FloatBuf []) →
  (1 ≤ n_distance self)%Z →
  ∃ fd numbers mask dm,
    batch_to_feed_dict self batch h
    = Ok (fd, h ++ [FloatBuf []; IntBuf []; FloatBuf []]) ∧
    fd !! atom_number_placeholder = Some numbers ∧
    fd !! atom_mask_placeholder = Some mask ∧
    fd !! distance_matrix_placeholder = Some dm ∧
    fd !! distance_matrix_mask_placeholder = Some batch ∧
    shape numbers = [0] ∧ shape mask = [0] ∧
    shape dm = [0; n; n; Z.to_nat (n_distance self)].
Proof.
  intros Hshape Hbuf Hnd.
  assert (base batch < length h) by (by eapply lookup_lt_Some).
  exists (returned self h batch 0 n). eexists _, _, _.
  split_and!; [|done..].
  unfold batch_to_feed_dict. rewrite Hshape, Nat.min_id.
  rewrite (bind_run _ _ h h []) by (by apply load_floats_run).
  erewrite bind_run by apply alloc_run.
  erewrite bind_run by apply alloc_run.
  rewrite decide_False by lia.
  erewrite bind_run; last first.
  { apply load_floats_run. unfold slice_all.
    rewrite !lookup_app_l; [done|lia|rewrite length_app; lia]. }
  erewrite bind_run by apply alloc_run.
  cbn [seq for_ fmap list_fmap concat]. rewrite !length_app. cbn [length].
  replace (length h + 1 + 1) with (length h + 2) by lia.
  rewrite <- !app_assoc. done.
Qed.

Lemma empty_batch_witness :
  shape (NdArray 0 [0; 2; 2]) = [0; 2; 2] ∧
  [FloatBuf []] !! base (NdArray 0 [0; 2; 2]) = Some (FloatBuf []) ∧
  (1 ≤ n_distance small_topology)%Z ∧
  ∃ fd numbers mask dm,
    batch_to_feed_dict small_topology (NdArray 0 [0; 2; 2]) [FloatBuf []]
    = Ok (fd, [FloatBuf []] ++ [FloatBuf []; IntBuf []; FloatBuf []]) ∧
    fd !! atom_number_placeholder = Some numbers ∧
    fd !! atom_mask_placeholder = Some mask ∧
    fd !! distance_matrix_placeholder = Some dm ∧
    fd !! distance_matrix_mask_placeholder = Some (NdArray 0 [0; 2; 2]) ∧
    shape numbers = [0] ∧ shape mask = [0] ∧
    shape dm = [0; 2; 2; Z.to_nat (n_distance small_topology)].
Proof.
  assert (shape (NdArray 0 [0; 2; 2]) = [0; 2; 2]) as Hshape by reflexivity.
  assert ([FloatBuf []] !! base (NdArray 0 [0; 2; 2]) = Some (FloatBuf []))
    as Hbuf by reflexivity.
  assert (1 ≤ n_distance small_topology)%Z as Hnd by (cbn; lia).
  split_and!; [exact Hshape|exact Hbuf|exact Hnd|].
  exact (empty_batch small_topology [FloatBuf []] (NdArray 0 [0; 2; 2]) 2
           Hshape Hbuf Hnd).
Defined.

(** * The degree-bucketed topology *)

Section graph_topology.

Import GraphTopology.

Lemma graph_range_lookup start stop (i : nat) :
  i < Z.to_nat (stop - start) →
  range start stop !! i = Some (start + Z.of_nat i)%Z.
Proof.
  intros Hi. unfold range. by rewrite list_lookup_fmap, lookup_seq_lt.
Qed.

Lemma graph_range_elem start stop d :
  d ∈ range start stop ↔ (start ≤ d < stop)%Z.
Proof.
  unfold range. rewrite list_elem_of_fmap. split.
  - intros (i & -> & Hi). apply elem_of_seq in Hi. lia.
  - intros Hd. exists (Z.to_nat (d - start)). split; [lia|].
    apply elem_of_seq. lia.
Qed.

Lemma graph_range_NoDup start stop : NoDup (range start stop).
Proof.
  unfold range. apply NoDup_fmap_2; [|apply NoDup_seq].
  intros i j Hij. lia.
Qed.

Lemma graph_range_length start stop :
  length (range start stop) = Z.to_nat (stop - start).
Proof. unfold range. by rewrite length_fmap, length_seq. Qed.

Lemma list_index_ok {V} (l : list V) (i : Z) x :
  (0 ≤ i)%Z → l !! Z.to_nat i = Some x → list_index l i = Ok x.
Proof.
  intros Hi Hx. unfold list_index.
  pose proof (lookup_lt_Some _ _ _ Hx). cbn zeta.
  rewrite (decide_False (P := (i < 0)%Z)) by lia.
  rewrite decide_True by lia. by rewrite Hx.
Qed.

Lemma list_index_out_of_range {V} (l : list V) (i : Z) :
  (Z.of_nat (length l) ≤ i)%Z → list_index l i = Raise IndexError.
Proof.
  intros Hi. unfold list_index. cbn zeta.
  rewrite (decide_False (P := (i < 0)%Z)) by lia.
  by rewrite decide_False by lia.
Qed.

Lemma list_index_raise {V} (l : list V) (i : Z) e :
  list_index l i = Raise e → e = IndexError.
Proof. unfold list_index. repeat case_match; congruence. Qed.

Lemma mapM_outcome_ok {A C} (f : A → outcome C) (g : A → C) (l : list A) :
  Forall (λ x, f x = Ok (g x)) l → mapM f l = Ok (g <$> l).
Proof.
  induction 1 as [|x l Hx _ IH]; [done|].
  cbn. rewrite Hx. cbn. rewrite IH. done.
Qed.

Lemma mapM_outcome_raise {A C} (f : A → outcome C) (l : list A) e x :
  x ∈ l → f x = Raise e → (∀ y e', f y = Raise e' → e' = e) →
  mapM f l = Raise e.
Proof.
  intros Hin Hx Honly. induction l as [|y l IH]; [by apply elem_of_nil in Hin|].
  cbn. destruct (f y) as [c|e'] eqn:Hy; cbn.
  - apply elem_of_cons in Hin as [->|Hin]; [congruence|].
    by rewrite (IH Hin).
  - f_equal. by eapply Honly.
Qed.

Lemma zip_fmap_same {A C D} (f : A → C) (g : A → D) (l : list A) :
  zip (f <$> l) (g <$> l) = (λ x, (f x, g x)) <$> l.
Proof. induction l as [|x l IH]; [done|]. cbn. by rewrite IH. Qed.

Lemma deg_adj_placeholder_inj : Inj (=) (=) deg_adj_placeholder.
Proof. by intros d1 d2 [= ->]. Qed.

Lemma deg_adj_dict_lookup {V} (g : Z → V) (l : list Z) p :
  NoDup l →
  (list_to_map (reverse ((λ d, (deg_adj_placeholder d, g d)) <$> l))
     : gmap placeholder V) !! p
  = match p with
    | deg_adj_placeholder d => if decide (d ∈ l) then Some (g d) else None
    | _ => None
    end.
Proof.
  intros Hl.
  assert ((reverse ((λ d, (deg_adj_placeholder d, g d)) <$> l)).*1
          = reverse (deg_adj_placeholder <$> l)) as Hkeys.
  { by rewrite fmap_reverse, <- list_fmap_compose. }
  assert (∀ q, (∀ d, q = deg_adj_placeholder d → d ∉ l) →
            (list_to_map (reverse ((λ d, (deg_adj_placeholder d, g d)) <$> l))
               : gmap placeholder V) !! q = None) as Hnone.
  { intros q Hq. apply not_elem_of_list_to_map_1. rewrite Hkeys.
    rewrite elem_of_reverse, list_elem_of_fmap. intros (d & -> & Hd).
    by eapply Hq. }
  destruct p as [|d| |]; try (apply Hnone; intros d'; done).
  case_decide as Hd.
  - apply elem_of_list_to_map_1.
    + rewrite Hkeys, reverse_Permutation.
      apply NoDup_fmap_2; [apply deg_adj_placeholder_inj|done].
    + rewrite elem_of_reverse, list_elem_of_fmap. by exists d.
  - apply Hnone. by intros d' [= <-].
Qed.

Context {B V : Type} (agglomerate_mols : B → ConvMol V).

(** X20: when [deg_adj_lists] of the merged molecule has an entry for every
    degree up to [max_deg], the call returns a new dictionary whose keys are
    exactly the placeholders of [get_input_placeholders()]: the atom
    features, the degree slice, the membership, and for every degree
    [1 <= deg <= max_deg] the adjacency list [deg_adj_lists[deg]].  Entry 0
    of [deg_adj_lists] is not fed, and no dictionary that existed before is
    changed. *)
Theorem graph_feed_dict self batch (h : list (gmap placeholder V)) :
  (max_deg self < Z.of_nat (length (deg_adj_lists (agglomerate_mols batch))))%Z →
  ∃ fd_loc h' fd,
    batch_to_feed_dict agglomerate_mols self batch h = Ok (fd_loc, h') ∧
    h !! fd_loc = None ∧
    h' !! fd_loc = Some fd ∧
    dom fd = list_to_set (get_input_placeholders self) ∧
    fd !! atom_features_placeholder
    = Some (atom_features (agglomerate_mols batch)) ∧
    fd !! deg_slice_placeholder = Some (deg_slice (agglomerate_mols batch)) ∧
    fd !! membership_placeholder
    = Some (membership (agglomerate_mols batch)) ∧
    (∀ deg, fd !! deg_adj_placeholder deg
            = if decide (1 ≤ deg ≤ max_deg self)%Z
              then deg_adj_lists (agglomerate_mols batch) !! Z.to_nat deg
              else None) ∧
    (∀ x, x < length h → h' !! x = h !! x).
Proof.
  intros Hlen. set (mol := agglomerate_mols batch) in *.
  set (g := λ deg : Z,
         default (atom_features mol) (deg_adj_lists mol !! Z.to_nat deg)).
  set (ds := range 1 (max_deg self + 1)).
  set (D := (list_to_map
               (reverse ((λ d, (deg_adj_placeholder d, g d)) <$> ds))
             : gmap placeholder V)).
  set (A := (list_to_map
               (reverse [ (atom_features_placeholder, atom_features mol);
                          (deg_slice_placeholder, deg_slice mol);
                          (membership_placeholder, membership mol) ])
             : gmap placeholder V)).
  assert (∀ d, d ∈ ds → deg_adj_lists mol !! Z.to_nat d = Some (g d)) as Hg.
  { intros d Hd%graph_range_elem. unfold g.
    destruct (lookup_lt_is_Some_2 (deg_adj_lists mol) (Z.to_nat d))
      as [x ->]; [lia|done]. }
  assert (mapM (list_index (deg_adj_lists mol)) ds = Ok (g <$> ds)) as Hmap.
  { apply mapM_outcome_ok, Forall_forall. intros d Hd.
    apply list_index_ok; [|by apply Hg].
    apply graph_range_elem in Hd. lia. }
  destruct (merge_dicts_run [length (h ++ [D]); length h] ((h ++ [D]) ++ [A]))
    as (h' & Hrun & _ & Hres & Hframe).
  { rewrite !length_app. cbn. repeat constructor; lia. }
  assert (∀ p, D !! p = match p with
                        | deg_adj_placeholder d =>
                            if decide (1 ≤ d ≤ max_deg self)%Z
                            then deg_adj_lists mol !! Z.to_nat d else None
                        | _ => None
                        end) as HD.
  { intros p. unfold D. rewrite deg_adj_dict_lookup by apply graph_range_NoDup.
    destruct p as [|d| |]; try done.
    destruct (decide (d ∈ ds)) as [Hd|Hd].
    - rewrite decide_True by (apply graph_range_elem in Hd; lia).
      symmetry. by apply Hg.
    - rewrite decide_False; [done|]. intros Hd'. apply Hd.
      apply graph_range_elem. lia. }
  assert (∀ p, (D ∪ (A ∪ ∅)) !! p = match D !! p with
                                     | Some x => Some x
                                     | None => A !! p
                                     end) as Hfd.
  { intros p. rewrite (right_id_L ∅ (∪)), lookup_union.
    by destruct (D !! p), (A !! p). }
  assert (∀ d, A !! deg_adj_placeholder d = None) as HA.
  { intros d. unfold A. cbn. rewrite !lookup_insert_ne by done.
    apply lookup_empty. }
  eexists (length ((h ++ [D]) ++ [A]) + length [length (h ++ [D]); length h]),
    h', (D ∪ (A ∪ ∅)).
  split_and!.
  - unfold batch_to_feed_dict. fold mol. fold ds. rewrite Hmap.
    unfold deg_adj_lists_placeholders. fold ds.
    cbv beta iota zeta delta [dict_of mbind outcome_bind mret outcome_ret].
    rewrite zip_fmap_same. fold D. fold A. by rewrite Hrun.
  - apply lookup_ge_None_2. rewrite !length_app. cbn. lia.
  - rewrite Hres. f_equal. cbn [fmap list_fmap merged_of foldl].
    rewrite (list_lookup_total_correct _ (length (h ++ [D])) A)
      by (by rewrite lookup_app_r, Nat.sub_diag).
    rewrite (list_lookup_total_correct _ (length h) D)
      by (rewrite lookup_app_l by (rewrite length_app; cbn; lia);
          by rewrite lookup_app_r, Nat.sub_diag).
    done.
  - apply set_eq. intros p. rewrite elem_of_dom, Hfd, HD.
    unfold get_input_placeholders, inputs, topology,
      deg_adj_lists_placeholders. fold ds. cbn [app].
    rewrite elem_of_list_to_set, !elem_of_cons, list_elem_of_fmap.
    destruct p as [|d| |].
    + split; [auto|]. intros _. by eexists.
    + case_decide as Hd.
      * destruct (lookup_lt_is_Some_2 (deg_adj_lists mol) (Z.to_nat d))
          as [x Hx]; [lia|]. rewrite Hx.
        split; [|intros _; by eexists].
        intros _. do 3 right. exists d. split; [done|].
        apply graph_range_elem. lia.
      * rewrite HA. split; [by intros [? ?]|].
        intros [?|[?|[?|(d' & [= <-] & Hd')]]]; try done.
        apply graph_range_elem in Hd'. lia.
    + split; [auto|]. intros _. by eexists.
    + split; [auto|]. intros _. by eexists.
  - by rewrite Hfd, HD.
  - by rewrite Hfd, HD.
  - by rewrite Hfd, HD.
  - intros deg. rewrite Hfd, HD. case_decide as Hd; [|done].
    destruct (lookup_lt_is_Some_2 (deg_adj_lists mol) (Z.to_nat deg))
      as [x ->]; [lia|done].
  - intros x Hx. rewrite Hframe by (rewrite !length_app; cbn; lia).
    rewrite lookup_app_l by (rewrite length_app; cbn; lia).
    by rewrite lookup_app_l.
Qed.

(** X21: when [max_deg >= 1] and [deg_adj_lists] of the merged molecule has
    no entry for the degree [max_deg], the call raises [IndexError] and
    returns no dictionary. *)
Theorem graph_feed_dict_short_lists self batch (h : list (gmap placeholder V)) :
  (1 ≤ max_deg self)%Z →
  (Z.of_nat (length (deg_adj_lists (agglomerate_mols batch))) ≤ max_deg self)%Z →
  batch_to_feed_dict agglomerate_mols self batch h = Raise IndexError.
Proof.
  intros Hmd Hlen. unfold batch_to_feed_dict.
  rewrite (mapM_outcome_raise _ _ IndexError (max_deg self)); [done|..].
  - apply graph_range_elem. lia.
  - by apply list_index_out_of_range.
  - intros y e'. apply list_index_raise.
Qed.

End graph_topology.

Lemma graph_feed_dict_witness :
  (GraphTopology.max_deg small_graph_topology
   < Z.of_nat (length (GraphTopology.deg_adj_lists (small_mol ()))))%Z ∧
  ∃ fd_loc h' fd,
    GraphTopology.batch_to_feed_dict small_mol small_graph_topology () []
    = Ok (fd_loc, h') ∧
    ([] : list (gmap GraphTopology.placeholder nat)) !! fd_loc = None ∧
    h' !! fd_loc = Some fd ∧
    dom fd
    = list_to_set (GraphTopology.get_input_placeholders small_graph_topology).
Proof.
  assert (GraphTopology.max_deg small_graph_topology
          < Z.of_nat (length (GraphTopology.deg_adj_lists (small_mol ()))))%Z
    as Hlen by (cbn; lia).
  split; [exact Hlen|].
  destruct (graph_feed_dict small_mol small_graph_topology () [] Hlen)
    as (fd_loc & h' & fd & Hrun & Hfresh & Hfd & Hdom & _).
  exists fd_loc, h', fd. split_and!; [exact Hrun|exact Hfresh|exact Hfd|exact Hdom].
Defined.

Lemma graph_feed_dict_short_lists_witness :
  (1 ≤ GraphTopology.max_deg small_graph_topology)%Z ∧
  (Z.of_nat (length (GraphTopology.deg_adj_lists (short_mol ())))
   ≤ GraphTopology.max_deg small_graph_topology)%Z ∧
  GraphTopology.batch_to_feed_dict short_mol small_graph_topology ()
    ([] : list (gmap GraphTopology.placeholder nat))
  = Raise IndexError.
Proof.
  assert (1 ≤ GraphTopology.max_deg small_graph_topology)%Z as Hmd
    by (cbn; lia).
  assert (Z.of_nat (length (GraphTopology.deg_adj_lists (short_mol ())))
          ≤ GraphTopology.max_deg small_graph_topology)%Z as Hlen
    by (cbn; lia).
  split_and!; [exact Hmd|exact Hlen|].
  exact (graph_feed_dict_short_lists short_mol small_graph_topology () []
           Hmd Hlen).
Defined.

Lemma tensor_name_inj self p q :
  GraphTopology.tensor_name (GraphTopology.args self p)
  = GraphTopology.tensor_name (GraphTopology.args self q) →
  p = q.
Proof.
  destruct p as [|d1| |], q as [|d2| |]; cbn; try done;
    intros Heq;
    try (apply String.app_inj in Heq;
         cbv beta iota fix delta [String.append] in Heq; congruence).
  do 2 apply String.app_inj in Heq. by apply pretty_Z_inj in Heq as ->.
Qed.

(** X22: the placeholders a topology creates carry pairwise distinct tensor
    names, whatever [name] and [max_deg] are; [get_input_placeholders()]
    lists [max(max_deg, 0) + 3] of them, the atom features first and the
    topology placeholders after it. *)
Theorem input_placeholder_names_distinct (self : GraphTopology.t) :
  NoDup ((λ p, GraphTopology.tensor_name (GraphTopology.args self p))
           <$> GraphTopology.get_input_placeholders self) ∧
  length (GraphTopology.get_input_placeholders self)
  = Z.to_nat (GraphTopology.max_deg self) + 3 ∧
  GraphTopology.get_input_placeholders self
  = GraphTopology.get_atom_features_placeholder self
    :: GraphTopology.get_topology_placeholders self.
Proof.
  split_and!; [|..|done].
  - apply NoDup_fmap_2; [intros p q; apply tensor_name_inj|].
    unfold GraphTopology.get_input_placeholders, GraphTopology.inputs,
      GraphTopology.topology, GraphTopology.deg_adj_lists_placeholders.
    cbn [app]. rewrite !NoDup_cons, !not_elem_of_cons, !list_elem_of_fmap.
    split_and!; try done; try (by intros (d & ? & _)).
    apply NoDup_fmap_2; [by intros d1 d2 [= ->]|apply graph_range_NoDup].
  - unfold GraphTopology.get_input_placeholders, GraphTopology.inputs,
      GraphTopology.topology, GraphTopology.deg_adj_lists_placeholders.
    cbn [app length]. rewrite length_fmap, graph_range_length. lia.
Qed.
